(** * HTMLToTextConverter: the HTML-to-text converter of the mail client

    A shallow embedding of [html_converter.py].  The converter is a fixed
    sequence of loops over a BeautifulSoup tree, each of which replaces or
    removes elements in place, followed by a regular-expression clean-up of
    the extracted text.

    The embedding has three layers:
    - [PyStr], [Re], [Bs4]: the operations of Python's [str], [re] and of
      the [bs4] tree that the converter calls;
    - the converter itself, one definition per method of the class, with the
      names of the source;
    - the properties of the converter. *)

From Stdlib Require Import List NArith Bool Arith Lia String Ascii.
From Stdlib Require Import DecimalString.
Import ListNotations.

Set Warnings "-register-all".

Local Open Scope N_scope.
Local Open Scope list_scope.

(* ================================================================= *)
(** ** Python strings *)

(** A Python [str] is a sequence of Unicode code points. *)
Module PyStr.

Definition char := N.
Definition str := list char.

(** Source literals are written as UTF-8 text and decoded to code points. *)
Fixpoint decode_utf8 (acc : N) (more : nat) (s : string) : str :=
  match s with
  | EmptyString => []
  | String a r =>
      let b := N_of_ascii a in
      match more with
      | S k =>
          let acc' := acc * 64 + b mod 64 in
          match k with
          | O => acc' :: decode_utf8 0 0 r
          | S _ => decode_utf8 acc' k r
          end
      | O =>
          if b <? 128 then b :: decode_utf8 0 0 r
          else if b <? 224 then decode_utf8 (b mod 32) 1 r
          else if b <? 240 then decode_utf8 (b mod 16) 2 r
          else decode_utf8 (b mod 8) 3 r
      end
  end.

Definition u8 (s : string) : str := decode_utf8 0 0 s.

Definition nl : char := 10.
Definition sp : char := 32.

(** [s] between double quotes. *)
Definition quoted (s : str) : str := 34 :: s ++ [34].

Fixpoint eqb (a b : str) : bool :=
  match a, b with
  | [], [] => true
  | x :: a', y :: b' => (x =? y) && eqb a' b'
  | _, _ => false
  end.

(** Truth value of a string: [if s:] holds for the non-empty ones. *)
Definition truthy (s : str) : bool :=
  match s with [] => false | _ :: _ => true end.

(** [str.isspace] on one code point: the characters of Unicode category Zs
    and of bidirectional class WS, B or S. *)
Definition isspace (c : char) : bool :=
  ((9 <=? c) && (c <=? 13)) || ((28 <=? c) && (c <=? 32))
  || (c =? 133) || (c =? 160) || (c =? 5760)
  || ((8192 <=? c) && (c <=? 8202))
  || (c =? 8232) || (c =? 8233) || (c =? 8239) || (c =? 8287)
  || (c =? 12288).

Fixpoint lstrip (s : str) : str :=
  match s with
  | [] => []
  | c :: r => if isspace c then lstrip r else s
  end.

Definition rstrip (s : str) : str := rev (lstrip (rev s)).

(** [s.strip()] *)
Definition strip (s : str) : str := rstrip (lstrip s).

(** [s.upper()] and [s.lower()], on the Latin letters of ASCII and on the
    Cyrillic block (U+0400..U+045F); the other code points are kept.
    Python changes the case of other letters too, and may change the
    length of the string (the sharp s becomes two letters): texts with
    such letters are outside this model. *)
Definition upper_char (c : char) : char :=
  if (97 <=? c) && (c <=? 122) then c - 32
  else if (1072 <=? c) && (c <=? 1103) then c - 32
  else if (1104 <=? c) && (c <=? 1119) then c - 80
  else c.

Definition lower_char (c : char) : char :=
  if (65 <=? c) && (c <=? 90) then c + 32
  else if (1040 <=? c) && (c <=? 1071) then c + 32
  else if (1024 <=? c) && (c <=? 1039) then c + 80
  else c.

Definition upper (s : str) : str := map upper_char s.
Definition lower (s : str) : str := map lower_char s.

(** [s.replace(a, b)] for one-character [a] and [b]. *)
Definition replace_char (a b : char) (s : str) : str :=
  map (fun c => if c =? a then b else c) s.

(** [sep.join(parts)] *)
Fixpoint join (sep : str) (parts : list str) : str :=
  match parts with
  | [] => []
  | [p] => p
  | p :: rest => p ++ sep ++ join sep rest
  end.

(** [s.split(c)] for a one-character separator: never the empty list. *)
Fixpoint split_on (c : char) (s : str) : list str :=
  match s with
  | [] => [[]]
  | x :: r =>
      if x =? c then [] :: split_on c r
      else match split_on c r with
           | [] => [[x]]
           | l :: ls => (x :: l) :: ls
           end
  end.

Fixpoint startswith (p s : str) : bool :=
  match p, s with
  | [], _ => true
  | x :: p', y :: s' => (x =? y) && startswith p' s'
  | _ :: _, [] => false
  end.

(** [p in s]: [p] occurs in [s] as a substring. *)
Fixpoint contains (p s : str) : bool :=
  startswith p s ||
  match s with
  | [] => false
  | _ :: r => contains p r
  end.

(** [str(i)] for a natural number. *)
Definition of_nat (i : nat) : str :=
  u8 (NilEmpty.string_of_uint (Nat.to_uint i)).

End PyStr.
Import PyStr.

(* ================================================================= *)
(** ** Results of partial operations *)

(** The exceptions the calls of the converter can raise. *)
Inductive exn := KeyError | TypeError | ValueError.

Inductive result (A : Type) : Type :=
| Ok (a : A)
| Raise (e : exn).
Arguments Ok {A} a.
Arguments Raise {A} e.

Definition bind {A B} (r : result A) (k : A -> result B) : result B :=
  match r with
  | Ok a => k a
  | Raise e => Raise e
  end.

Notation "x <- r ;; k" := (bind r (fun x => k))
  (at level 61, r at next level, right associativity).
Notation "r ;;; k" := (bind r (fun _ => k))
  (at level 61, right associativity).

(* ================================================================= *)
(** ** Regular expressions *)

(** The two patterns of the converter are sequences of character classes,
    each taken once or under a greedy star.  [match_at] is the backtracking
    matcher of [re] on such patterns: a star first takes as many characters
    as it can and gives them back one by one while the rest of the pattern
    fails. *)
Module Re.

Inductive atom :=
| One (p : char -> bool)
| Star (p : char -> bool).

Definition regex := list atom.

(** The text left after a match starting at the head of the input. *)
Fixpoint match_at (re : regex) : str -> option str :=
  match re with
  | [] => fun s => Some s
  | One p :: re' =>
      fun s =>
        match s with
        | c :: r => if p c then match_at re' r else None
        | [] => None
        end
  | Star p :: re' =>
      fix star (s : str) : option str :=
        match s with
        | c :: r =>
            if p c then
              match star r with
              | Some rest => Some rest
              | None => match_at re' s
              end
            else match_at re' s
        | [] => match_at re' s
        end
  end.

(** [re.sub(re, repl, s)]: the leftmost matches, none overlapping another,
    are replaced by [repl].  [skip] counts the characters of the current
    match still to be passed over. *)
Fixpoint sub_from (re : regex) (repl : str) (skip : nat) (s : str) : str :=
  match s with
  | [] =>
      match skip, match_at re [] with
      | O, Some _ => repl
      | _, _ => []
      end
  | c :: r =>
      match skip with
      | S k => sub_from re repl k r
      | O =>
          match match_at re s with
          | Some rest =>
              match (List.length s - List.length rest)%nat with
              | O => repl ++ c :: sub_from re repl 0 r
              | S k => repl ++ sub_from re repl k r
              end
          | None => c :: sub_from re repl 0 r
          end
      end
  end.

Definition sub (re : regex) (repl s : str) : str := sub_from re repl 0 s.

End Re.

(* ================================================================= *)
(** ** The BeautifulSoup tree *)

Module Bs4.

(** A page element: a string, a comment (or another string that is not
    text: a doctype, a declaration), or a tag with its attributes and
    contents. *)
Inductive node :=
| NavigableString (s : str)
| Comment (s : str)
| Tag (name : str) (attrs : list (str * str)) (contents : list node).

Definition name_of (n : node) : option str :=
  match n with
  | Tag nm _ _ => Some nm
  | _ => None
  end.

Definition contents_of (n : node) : list node :=
  match n with
  | Tag _ _ cs => cs
  | _ => []
  end.

Fixpoint lookup (k : str) (attrs : list (str * str)) : option str :=
  match attrs with
  | [] => None
  | (k', v) :: rest => if eqb k k' then Some v else lookup k rest
  end.

(** [tag[k]]: the value of the attribute, [KeyError] when it is absent. *)
Definition getitem (n : node) (k : str) : result str :=
  match n with
  | Tag _ attrs _ =>
      match lookup k attrs with
      | Some v => Ok v
      | None => Raise KeyError
      end
  | _ => Raise TypeError
  end.

(** [tag.get_text()]: the strings below the tag, in document order,
    concatenated; comments are no text. *)
Fixpoint get_text (n : node) : str :=
  match n with
  | NavigableString s => s
  | Comment _ => []
  | Tag _ _ cs => flat_map get_text cs
  end.

(** A node followed by everything below it, in document order. *)
Fixpoint subtree (n : node) : list node :=
  n :: match n with
       | Tag _ _ cs => flat_map subtree cs
       | _ => []
       end.

(** [tag.descendants] *)
Definition descendants (cs : list node) : list node := flat_map subtree cs.

(** [tag.find_all(...)], for a criterion [p] on tags, on the contents [cs]
    of the tag: the search is recursive. *)
Definition find_all (p : node -> bool) (cs : list node) : list node :=
  filter p (descendants cs).

(** *** Elements under a loop that changes the tree

    [for x in soup.find_all(...)] builds the list of the elements found
    before its first iteration.  An iteration that replaces or decomposes an
    element takes the whole subtree out of the document, and the loop still
    reaches the elements of that subtree which are in its list:
    - below an element replaced by [replace_with] they are as they were,
      and what the body does to them changes the detached subtree only;
    - below an element removed by [decompose] they have been wiped:
      [decompose] clears the attributes and the contents of every element of
      the subtree, and leaves it without a parent. *)
Inductive element :=
| Intact (n : node)
| Wiped.

(** What the body of a loop does to the element it is given. *)
Inductive effect :=
| Untouched
| Replaced (s : str)
| Decomposed.

Definition text_of (e : element) : str :=
  match e with
  | Intact n => get_text n
  | Wiped => []
  end.

Definition children (e : element) : list node :=
  match e with
  | Intact n => contents_of n
  | Wiped => []
  end.

Definition find_all_in (p : node -> bool) (e : element) : list node :=
  find_all p (children e).

(** [tag[k]]; a wiped tag has no attribute dictionary left. *)
Definition item (e : element) (k : str) : result str :=
  match e with
  | Intact n => getitem n k
  | Wiped => Raise TypeError
  end.

(** [tag.replace_with(s)]; an element without a parent cannot be replaced. *)
Definition replace_with (e : element) (s : str) : result effect :=
  match e with
  | Intact _ => Ok (Replaced s)
  | Wiped => Raise ValueError
  end.

(** [tag.decompose()] *)
Definition decompose (e : element) : result effect := Ok Decomposed.

Definition flat_mapM {A B} (f : A -> result (list B))
  : list A -> result (list B) :=
  fix go (l : list A) : result (list B) :=
    match l with
    | [] => Ok []
    | x :: r => x' <- f x ;; r' <- go r ;; Ok (x' ++ r')
    end.

Definition iterM {A} (f : A -> result unit) : list A -> result unit :=
  fix go (l : list A) : result unit :=
    match l with
    | [] => Ok tt
    | x :: r => f x ;;; go r
    end.

Section ForEach.

(** The criterion of [find_all] and the body of the loop. *)
Variable found : node -> bool.
Variable body : element -> result effect.

(** The iterations on the elements below a decomposed element. *)
Fixpoint visit_wiped (n : node) : result unit :=
  match n with
  | Tag _ _ cs =>
      (if found n then body Wiped ;;; Ok tt else Ok tt) ;;;
      iterM visit_wiped cs
  | _ => Ok tt
  end.

(** The iterations on an element and on what is below it, in document
    order, and what takes the place of the element in its parent. *)
Fixpoint visit (n : node) : result (list node) :=
  match n with
  | Tag nm attrs cs =>
      e <- (if found n then body (Intact n) else Ok Untouched) ;;
      match e with
      | Untouched => cs' <- flat_mapM visit cs ;; Ok [Tag nm attrs cs']
      | Replaced s => flat_mapM visit cs ;;; Ok [NavigableString s]
      | Decomposed => iterM visit_wiped cs ;;; Ok []
      end
  | _ => Ok [n]
  end.

(** [for x in soup.find_all(found): body(x)], on the contents of the
    soup. *)
Definition for_each (soup : list node) : result (list node) :=
  flat_mapM visit soup.

End ForEach.

(** Criteria of [find_all]. *)
Definition named (tag : str) (n : node) : bool :=
  match n with
  | Tag nm _ _ => eqb nm tag
  | _ => false
  end.

Definition named_any (tags : list str) (n : node) : bool :=
  existsb (fun t => named t n) tags.

(** [find_all(tag, k=True)]: the tags of that name that have attribute [k]. *)
Definition named_with (tag k : str) (n : node) : bool :=
  match n with
  | Tag nm attrs _ =>
      eqb nm tag && match lookup k attrs with Some _ => true | None => false end
  | _ => false
  end.

End Bs4.
Import Bs4.

(* ================================================================= *)
(** ** Character references and the parser *)

(** [html.unescape], for the references [&amp;] [&lt;] [&gt;] [&quot;]
    [&apos;] [&nbsp;] written with their semicolon.  Every other ampersand
    is kept as it is.  Python decodes more: the numeric references, the
    other named references of HTML 5, and some names written without their
    semicolon; inputs with those are outside this model. *)
Module Html.

Definition references : list (str * char) :=
  [ (u8 "amp;", 38); (u8 "lt;", 60); (u8 "gt;", 62);
    (u8 "quot;", 34); (u8 "apos;", 39); (u8 "nbsp;", 160) ].

Fixpoint reference (refs : list (str * char)) (s : str) : option (char * nat) :=
  match refs with
  | [] => None
  | (nm, c) :: rest =>
      if startswith nm s then Some (c, List.length nm) else reference rest s
  end.

Fixpoint unescape_from (skip : nat) (s : str) : str :=
  match s with
  | [] => []
  | c :: r =>
      match skip with
      | S k => unescape_from k r
      | O =>
          if c =? 38 then
            match reference references r with
            | Some (d, n) => d :: unescape_from n r
            | None => c :: unescape_from 0 r
            end
          else c :: unescape_from 0 r
      end
  end.

Definition unescape (s : str) : str := unescape_from 0 s.

End Html.

(** [BeautifulSoup(markup, "html.parser")], for markup made of text, start
    tags with quoted, unquoted or valueless attributes, end tags, comments
    and declarations.  As in [bs4]: names are lower-cased, a later duplicate
    of an attribute replaces the earlier one, an attribute without a value
    has the empty string, void elements and self-closed tags have no
    contents, an end tag closes the innermost open element of its name
    together with what is open inside it and is ignored when there is none,
    the end of the input closes what is still open, and a string of ASCII
    white space outside [pre] and [textarea] becomes one newline or one
    space.  The raw-text content of [script] and [style] is not modelled.
    The model gives a tree for every input.  The parser does not: on a
    marked section whose keyword it does not know, such as [<![foo]>], the
    constructor raises [ParserRejectedMarkup].  Markup of that kind is
    outside this model, and what is proved below for every markup is a
    property of the tree and holds of the program for the markup that the
    parser accepts. *)
Module HtmlParser.

Definition lt : char := 60.
Definition gt : char := 62.
Definition slash : char := 47.
Definition bang : char := 33.
Definition equals : char := 61.

Definition is_ascii_space (c : char) : bool :=
  (c =? 32) || (c =? 10) || (c =? 9) || (c =? 12) || (c =? 13).

Definition is_letter (c : char) : bool :=
  ((65 <=? c) && (c <=? 90)) || ((97 <=? c) && (c <=? 122)).

Definition is_quote (c : char) : bool := (c =? 34) || (c =? 39).

Inductive token :=
| TData (s : str)
| TStart (name : str) (attrs : list (str * str)) (closed : bool)
| TEnd (name : str)
| TComment (s : str).

Fixpoint take_while (p : char -> bool) (s : str) : str :=
  match s with
  | [] => []
  | c :: r => if p c then c :: take_while p r else []
  end.

Fixpoint drop_while (p : char -> bool) (s : str) : str :=
  match s with
  | [] => []
  | c :: r => if p c then drop_while p r else s
  end.

Fixpoint set_attr (k v : str) (attrs : list (str * str)) : list (str * str) :=
  match attrs with
  | [] => [(k, v)]
  | (k', v') :: rest =>
      if eqb k k' then (k', v) :: rest else (k', v') :: set_attr k v rest
  end.

(** The attributes of a start tag, read one character at a time. *)
Inductive attr_state :=
| Between
| InName (n : str)
| AfterName (n : str)
| AfterEquals (n : str)
| InQuoted (n : str) (q : char) (v : str)
| InBare (n : str) (v : str).

Definition emit (n v : str) (acc : list (str * str)) : list (str * str) :=
  set_attr (lower (rev n)) (Html.unescape (rev v)) acc.

Fixpoint lex_attrs (st : attr_state) (acc : list (str * str)) (s : str)
  : list (str * str) :=
  match s with
  | [] =>
      match st with
      | Between => acc
      | InName n | AfterName n | AfterEquals n => emit n [] acc
      | InQuoted n _ v | InBare n v => emit n v acc
      end
  | c :: r =>
      match st with
      | Between =>
          if is_ascii_space c || (c =? slash) then lex_attrs Between acc r
          else lex_attrs (InName [c]) acc r
      | InName n =>
          if is_ascii_space c then lex_attrs (AfterName n) acc r
          else if c =? equals then lex_attrs (AfterEquals n) acc r
          else if c =? slash then lex_attrs Between (emit n [] acc) r
          else lex_attrs (InName (c :: n)) acc r
      | AfterName n =>
          if is_ascii_space c then lex_attrs (AfterName n) acc r
          else if c =? equals then lex_attrs (AfterEquals n) acc r
          else if c =? slash then lex_attrs Between (emit n [] acc) r
          else lex_attrs (InName [c]) (emit n [] acc) r
      | AfterEquals n =>
          if is_ascii_space c then lex_attrs (AfterEquals n) acc r
          else if is_quote c then lex_attrs (InQuoted n c []) acc r
          else lex_attrs (InBare n [c]) acc r
      | InQuoted n q v =>
          if c =? q then lex_attrs Between (emit n v acc) r
          else lex_attrs (InQuoted n q (c :: v)) acc r
      | InBare n v =>
          if is_ascii_space c then lex_attrs Between (emit n v acc) r
          else lex_attrs (InBare n (c :: v)) acc r
      end
  end.

Definition ends_with_slash (raw : str) : bool :=
  match rev raw with
  | c :: _ => c =? slash
  | [] => false
  end.

(** The token for the text [raw] found between [<] and [>]. *)
Definition token_of (raw : str) : token :=
  match raw with
  | c :: rest =>
      if c =? slash then
        TEnd (lower (take_while (fun x => negb (is_ascii_space x)) rest))
      else if c =? bang then TComment rest
      else
        let is_name x := negb (is_ascii_space x) && negb (x =? slash) in
        TStart (lower (take_while is_name raw))
               (lex_attrs Between [] (drop_while is_name raw))
               (ends_with_slash raw)
  | [] => TData [lt; gt]
  end.

(** The lexer is either in text or inside [<...>]; [data] and [raw] are
    kept in reverse. *)
Inductive lex_state :=
| Data (data : str)
| Markup (data : str) (raw : str) (quote : option char).

Definition data_token (data : str) : list token :=
  match data with
  | [] => []
  | _ :: _ => [TData (Html.unescape (rev data))]
  end.

Definition starts_markup (r : str) : bool :=
  match r with
  | c :: _ => is_letter c || (c =? slash) || (c =? bang)
  | [] => false
  end.

(** A comment is open until [-->]. *)
Definition comment_open (raw : str) : bool :=
  startswith (u8 "!--") (rev raw)
  && negb (startswith (u8 "--") raw && (5 <=? List.length raw)%nat).

Definition is_declaration (raw : str) : bool :=
  startswith [bang] (rev raw).

Definition value_expected (raw : str) : bool :=
  match drop_while is_ascii_space raw with
  | c :: _ => c =? equals
  | [] => false
  end.

Fixpoint lex (st : lex_state) (s : str) : list token :=
  match s with
  | [] =>
      match st with
      | Data data => data_token data
      | Markup data raw _ => data_token (raw ++ lt :: data)
      end
  | c :: r =>
      match st with
      | Data data =>
          if (c =? lt) && starts_markup r then lex (Markup data [] None) r
          else lex (Data (c :: data)) r
      | Markup data raw (Some q) =>
          lex (Markup data (c :: raw) (if c =? q then None else Some q)) r
      | Markup data raw None =>
          if c =? gt then
            if comment_open raw then lex (Markup data (c :: raw) None) r
            else data_token data ++ token_of (rev raw) :: lex (Data []) r
          else if is_quote c && value_expected raw && negb (is_declaration raw)
          then lex (Markup data (c :: raw) (Some c)) r
          else lex (Markup data (c :: raw) None) r
      end
  end.

(** The tree builder: the elements still open, innermost first, each with
    the contents it has so far, in reverse. *)
Record open_tag := Open {
  o_name : str;
  o_attrs : list (str * str);
  o_rev : list node
}.

Definition void_tags : list str :=
  map u8 [ "area"; "base"; "br"; "col"; "embed"; "hr"; "img"; "input";
           "keygen"; "link"; "menuitem"; "meta"; "param"; "source";
           "track"; "wbr"; "basefont"; "bgsound"; "command"; "frame";
           "image"; "isindex"; "nextid"; "spacer" ]%string.

Definition is_void (nm : str) : bool := existsb (eqb nm) void_tags.

Definition add (n : node) (stack : list open_tag) (top : list node)
  : list open_tag * list node :=
  match stack with
  | [] => ([], n :: top)
  | f :: rest => (Open (o_name f) (o_attrs f) (n :: o_rev f) :: rest, top)
  end.

Definition finish (f : open_tag) (inner : option node) : node :=
  Tag (o_name f) (o_attrs f)
      (rev match inner with
           | Some n => n :: o_rev f
           | None => o_rev f
           end).

Fixpoint pop_to (nm : str) (stack : list open_tag) (inner : option node)
    (top : list node) : list open_tag * list node :=
  match stack with
  | [] => ([], match inner with Some n => n :: top | None => top end)
  | f :: rest =>
      if eqb (o_name f) nm then add (finish f inner) rest top
      else pop_to nm rest (Some (finish f inner)) top
  end.

Fixpoint close_all (stack : list open_tag) (inner : option node)
    (top : list node) : list node :=
  match stack with
  | [] => match inner with Some n => n :: top | None => top end
  | f :: rest => close_all rest (Some (finish f inner)) top
  end.

Definition is_open (nm : str) (stack : list open_tag) : bool :=
  existsb (fun f => eqb (o_name f) nm) stack.

Definition keeps_white_space (stack : list open_tag) : bool :=
  is_open (u8 "pre") stack || is_open (u8 "textarea") stack.

Definition squeeze (stack : list open_tag) (s : str) : str :=
  if forallb is_ascii_space s && negb (keeps_white_space stack) then
    if existsb (N.eqb nl) s then [nl] else [sp]
  else s.

Fixpoint build (toks : list token) (stack : list open_tag) (top : list node)
  : list node :=
  match toks with
  | [] => rev (close_all stack None top)
  | t :: rest =>
      let '(stack', top') :=
        match t with
        | TData s => add (NavigableString (squeeze stack s)) stack top
        | TComment s => add (Comment s) stack top
        | TStart nm attrs closed =>
            if closed || is_void nm then add (Tag nm attrs []) stack top
            else (Open nm attrs [] :: stack, top)
        | TEnd nm =>
            if is_open nm stack then pop_to nm stack None top
            else (stack, top)
        end in
      build rest stack' top'
  end.

Definition BeautifulSoup (markup : str) : list node :=
  build (lex (Data []) markup) [] [].

End HtmlParser.
Import HtmlParser.

(* ================================================================= *)
(** ** HTMLToTextConverter *)

Definition foldM {A B} (f : B -> A -> result B) : list A -> B -> result B :=
  fix go (l : list A) (b : B) : result B :=
    match l with
    | [] => Ok b
    | x :: r => b' <- f b x ;; go r b'
    end.

Definition nonempty {A} (l : list A) : bool :=
  match l with [] => false | _ :: _ => true end.

(** [enumerate(l, 1)] *)
Definition enumerate1 {A} (l : list A) : list (nat * A) :=
  combine (seq 1 (List.length l)) l.

(** *** [_process_headings] *)

Definition heading_map : list (str * str) :=
  [ (u8 "h1", u8 "====== ");
    (u8 "h2", u8 "===== ");
    (u8 "h3", u8 "==== ");
    (u8 "h4", u8 "=== ");
    (u8 "h5", u8 "== ");
    (u8 "h6", u8 "= ") ].

Definition heading_body (prefix : str) (heading : element) : result effect :=
  let heading_text := strip (text_of heading) in
  if truthy heading_text then
    replace_with heading
      ([nl; nl] ++ prefix ++ upper heading_text ++ [nl]
       ++ replace_char sp 61 prefix ++ [nl])
  else Ok Untouched.

Definition _process_headings (soup : list node) : result (list node) :=
  foldM (fun soup '(tag, prefix) =>
           for_each (named tag) (heading_body prefix) soup)
        heading_map soup.

(** *** [_process_lists] *)

Definition ul_items (ul : element) : list str :=
  flat_map (fun li =>
              let item_text := strip (get_text li) in
              if truthy item_text then [u8 "  • " ++ item_text] else [])
           (find_all_in (named (u8 "li")) ul).

Definition ol_items (ol : element) : list str :=
  flat_map (fun '(i, li) =>
              let item_text := strip (get_text li) in
              if truthy item_text
              then [u8 "  " ++ of_nat i ++ u8 ". " ++ item_text]
              else [])
           (enumerate1 (find_all_in (named (u8 "li")) ol)).

Definition list_body (items : element -> list str) (l : element)
  : result effect :=
  let list_items := items l in
  if nonempty list_items
  then replace_with l ([nl] ++ join [nl] list_items ++ [nl])
  else decompose l.

Definition _process_lists (soup : list node) : result (list node) :=
  soup <- for_each (named (u8 "ul")) (list_body ul_items) soup ;;
  for_each (named (u8 "ol")) (list_body ol_items) soup.

(** *** [_process_tables] *)

Definition table_rows (table : element) : list str :=
  flat_map (fun tr =>
              let row_cells :=
                map (fun cell => strip (get_text cell))
                    (find_all (named_any [u8 "td"; u8 "th"]) (contents_of tr)) in
              if nonempty row_cells then [join (u8 " | ") row_cells] else [])
           (find_all_in (named (u8 "tr")) table).

Definition table_body (table : element) : result effect :=
  let rows := table_rows table in
  if nonempty rows then
    let table_content := join [nl] (map (fun row => u8 "  " ++ row) rows) in
    replace_with table ([nl] ++ table_content ++ [nl])
  else decompose table.

Definition _process_tables (soup : list node) : result (list node) :=
  for_each (named (u8 "table")) table_body soup.

(** *** [_process_links] *)

Definition link_body (link : element) : result effect :=
  let link_text := strip (text_of link) in
  href <- item link (u8 "href") ;;
  let link_url := strip href in
  if truthy link_text && truthy link_url then
    if negb (eqb link_text link_url)
    then replace_with link (link_text ++ u8 " [" ++ link_url ++ u8 "]")
    else replace_with link link_url
  else if truthy link_text then replace_with link link_text
  else if truthy link_url then replace_with link link_url
  else decompose link.

Definition _process_links (soup : list node) : result (list node) :=
  for_each (named_with (u8 "a") (u8 "href")) link_body soup.

(** *** [_process_paragraphs] *)

Definition br_body (br : element) : result effect := replace_with br [nl].

Definition p_body (p : element) : result effect :=
  let p_text := strip (text_of p) in
  if truthy p_text then replace_with p ([nl] ++ p_text ++ [nl])
  else decompose p.

(** The names of the children that make a [div] a mere container. *)
Definition structural_tags : list str :=
  map u8 [ "p"; "h1"; "h2"; "h3"; "h4"; "h5"; "h6"; "ul"; "ol"; "table" ]%string.

Definition is_structural (child : node) : bool :=
  match name_of child with
  | Some nm => existsb (eqb nm) structural_tags
  | None => false
  end.

Definition div_body (div : element) : result effect :=
  let div_text := strip (text_of div) in
  if truthy div_text then
    if negb (existsb is_structural (children div))
    then replace_with div ([nl] ++ div_text ++ [nl])
    else Ok Untouched
  else Ok Untouched.

Definition _process_paragraphs (soup : list node) : result (list node) :=
  soup <- for_each (named (u8 "br")) br_body soup ;;
  soup <- for_each (named (u8 "p")) p_body soup ;;
  for_each (named (u8 "div")) div_body soup.

(** *** [_finalize_formatting] *)

(** [\n\s*\n\s*\n] *)
Definition blank_lines : Re.regex :=
  [ Re.One (N.eqb nl); Re.Star isspace;
    Re.One (N.eqb nl); Re.Star isspace;
    Re.One (N.eqb nl) ].

(** [[ ]{2,}] *)
Definition spaces : Re.regex :=
  [ Re.One (N.eqb sp); Re.One (N.eqb sp); Re.Star (N.eqb sp) ].

Definition _finalize_formatting (text : str) : str :=
  let text := Re.sub blank_lines [nl; nl] text in
  let text := Re.sub spaces [sp] text in
  let lines := map strip (split_on nl text) in
  let text := join [nl] lines in
  strip text.

(** *** [convert] *)

Definition unwanted_tags : list str :=
  map u8 [ "script"; "style"; "meta"; "link" ]%string.

(** The passes of [convert] on the parsed tree. *)
Definition rewrite (soup : list node) : result (list node) :=
  soup <- for_each (named_any unwanted_tags) decompose soup ;;
  soup <- _process_headings soup ;;
  soup <- _process_lists soup ;;
  soup <- _process_tables soup ;;
  soup <- _process_links soup ;;
  _process_paragraphs soup.

(** [soup.get_text()] *)
Definition soup_text (soup : list node) : str := flat_map get_text soup.

Definition convert (html_content : option str) : result str :=
  match html_content with
  | None | Some [] => Ok []
  | Some html =>
      let cleaned_html := Html.unescape html in
      let soup := BeautifulSoup cleaned_html in
      soup <- rewrite soup ;;
      let text := soup_text soup in
      let text := _finalize_formatting text in
      Ok (strip text)
  end.

(** *** [extract_attachments_info] *)

Record attachment := Attachment { name : str; url : str }.

Definition keywords : list str :=
  map u8 [ "attachment"; "вложение"; "файл"; "download"; "скачать" ]%string.

Definition attachment_of (link : node) : result (list attachment) :=
  href <- getitem link (u8 "href") ;;
  let text := lower (strip (get_text link)) in
  if existsb (fun keyword => contains keyword text) keywords
  then Ok [Attachment (strip (get_text link)) href]
  else Ok [].

Definition extract_attachments_info (html_content : option str)
  : result (list attachment) :=
  match html_content with
  | None | Some [] => Ok []
  | Some html =>
      let soup := BeautifulSoup html in
      flat_mapM attachment_of (find_all (named_with (u8 "a") (u8 "href")) soup)
  end.

(* ================================================================= *)
(** ** Vocabulary of the statements *)

(** What [_process_lists] puts in the place of a list, from the lines of
    its items. *)
Definition list_block (items : list str) : list node :=
  if nonempty items
  then [NavigableString ([nl] ++ join [nl] items ++ [nl])]
  else [].

(** The markup of the examples. *)
Definition ol_xy : str := u8 "<ol><li>x</li><li>y</li></ol>".
Definition ol_gap : str := u8 "<ol><li>x</li><li> </li><li>y</li></ol>".
Definition ul_ab : str := u8 "<ul><li>a</li><li></li><li>b</li></ul>".
Definition ul_nested : str := u8 "<ul><li>a<ul><li>b</li></ul></li></ul>".
Definition h1_title : str := u8 "<h1>Title</h1>".
Definition a_here : str :=
  u8 "<a href=" ++ quoted (u8 "http://e.com") ++ u8 ">here</a>".
Definition a_same : str :=
  u8 "<a href=" ++ quoted (u8 "http://e.com") ++ u8 ">http://e.com</a>".
Definition a_download : str :=
  u8 "<a href=" ++ quoted (u8 "f.pdf") ++ u8 ">Download file</a>".
Definition a_twice_encoded : str :=
  u8 "<a href=" ++ quoted (u8 "f.pdf") ++ u8 ">download &amp;amp;</a>".
Definition a_in_a : str :=
  u8 "<a href=" ++ quoted [] ++ u8 "><a href=" ++ quoted (u8 "x")
  ++ u8 "></a></a>".
Definition table_ab : str := u8 "<table><tr><td>A</td><td>B</td></tr></table>".
Definition table_blank : str :=
  u8 "<table><tr><td> </td><td> </td></tr></table>".

(** A line of [n] equals signs. *)
Definition rule (n : nat) : str := repeat 61 n.

(** The conditions under which a text counts as already normalized: no two
    spaces in a row, no three newlines in a row, no line that begins or ends
    with white space. *)
Definition no_double_space (s : str) : bool := negb (contains [sp; sp] s).
Definition no_triple_newline (s : str) : bool :=
  negb (contains [nl; nl; nl] s).
Definition clean_lines (s : str) : bool :=
  forallb (fun l => eqb (strip l) l) (split_on nl s).

(** The text neither begins nor ends with a newline. *)
Definition no_outer_newline (s : str) : bool :=
  negb (startswith [nl] s) && negb (startswith [nl] (rev s)).

(** The trimmed texts of the cells of a table row. *)
Definition cells_of (tr : node) : list str :=
  map (fun cell => strip (get_text cell))
      (find_all (named_any [u8 "td"; u8 "th"]) (contents_of tr)).

(** The destination of an anchor, for the anchors that have one. *)
Definition href_of (link : node) : str :=
  match link with
  | Tag _ attrs _ =>
      match lookup (u8 "href") attrs with
      | Some v => v
      | None => []
      end
  | _ => []
  end.

Definition mentions_attachment (link : node) : bool :=
  existsb (fun keyword => contains keyword (lower (strip (get_text link))))
          keywords.

(* ================================================================= *)
(** ** Vocabulary of the further properties *)

(** The number of newlines in the white space a text begins with. *)
Fixpoint leading_newlines (s : str) : nat :=
  (match s with
  | c :: r =>
      if isspace c
      then (if N.eqb c nl then 1%nat else 0%nat) + leading_newlines r
      else O
  | [] => O
  end)%nat.

(** [t] is [s] with some of its white space taken out. *)
Inductive trimmed_of : str -> str -> Prop :=
| trimmed_nil : trimmed_of [] []
| trimmed_keep (c : char) (s t : str) :
    trimmed_of s t -> trimmed_of (c :: s) (c :: t)
| trimmed_drop (c : char) (s t : str) :
    isspace c = true -> trimmed_of s t -> trimmed_of (c :: s) t.

(** A text is normalized when finalization has nothing left to do on it. *)
Definition normalized (s : str) : bool :=
  no_double_space s && no_triple_newline s && clean_lines s
  && no_outer_newline s.

(** After no newline of the text come two more newlines with nothing but
    white space in between. *)
Definition few_newlines (s : str) : Prop :=
  forall p r, s = p ++ nl :: r -> (leading_newlines r <= 1)%nat.

(** The tree without the elements that [found] selects, each taken out
    with all that is below it. *)
Fixpoint pruned (found : node -> bool) (n : node) : list node :=
  match n with
  | Tag nm attrs cs =>
      if found n then [] else [Tag nm attrs (flat_map (pruned found) cs)]
  | _ => [n]
  end.

(** A criterion that looks at the name and the attributes of a tag only. *)
Definition shallow (q : node -> bool) : Prop :=
  (forall nm attrs cs cs', q (Tag nm attrs cs) = q (Tag nm attrs cs'))
  /\ (forall n, name_of n = None -> q n = false).

(** The anchors with a destination, as [_process_links] finds them. *)
Definition anchor : node -> bool := named_with (u8 "a") (u8 "href").

(** An anchor whose trimmed text and trimmed destination are both empty. *)
Definition empty_anchor (n : node) : bool :=
  negb (truthy (strip (get_text n))) && negb (truthy (strip (href_of n))).

(** Some empty anchor of the tree has another anchor inside it. *)
Definition anchor_in_empty_anchor (soup : list node) : bool :=
  existsb (fun n => empty_anchor n && nonempty (find_all anchor (contents_of n)))
          (find_all anchor soup).

(** The heading elements, [h1] to [h6]. *)
Definition heading : node -> bool := named_any (map fst heading_map).

(* ================================================================= *)
(** ** The mail client: what it does with a message *)

(** The values of a decoded JSON document.  A float is not modelled. *)
Inductive value :=
| VNone
| VBool (b : bool)
| VInt (z : BinNums.Z)
| VStr (s : str)
| VList (l : list value)
| VDict (d : list (str * value)).

(** A call returns a value, or raises; which exception it raises plays no
    part, the one caller catches them all. *)
Definition raises {A} : option A := None.

Definition and_then {A B} (r : option A) (k : A -> option B) : option B :=
  match r with
  | Some a => k a
  | None => None
  end.

Notation "x <~ r ;; k" := (and_then r (fun x => k))
  (at level 61, r at next level, right associativity).

Fixpoint dict_lookup (k : str) (d : list (str * value)) : option value :=
  match d with
  | [] => None
  | (k', v) :: rest => if eqb k k' then Some v else dict_lookup k rest
  end.

(** [v.get(k, default)]: only a dict has the method. *)
Definition get (v : value) (k : str) (default : value) : option value :=
  match v with
  | VDict d =>
      Some match dict_lookup k d with
           | Some x => x
           | None => default
           end
  | _ => raises
  end.

(** [for x in v]: the items of a list, the characters of a string, the keys
    of a dict; nothing else can be iterated. *)
Definition iterate (v : value) : option (list value) :=
  match v with
  | VList l => Some l
  | VStr s => Some (map (fun c => VStr [c]) s)
  | VDict d => Some (map (fun kv => VStr (fst kv)) d)
  | _ => raises
  end.

(** [if v:] *)
Definition truth (v : value) : bool :=
  match v with
  | VNone => false
  | VBool b => b
  | VInt z => match z with BinNums.Z0 => false | _ => true end
  | VStr s => truthy s
  | VList l => nonempty l
  | VDict d => nonempty d
  end.

(** [v == s] for a string [s] *)
Definition is_str (v : value) (s : str) : bool :=
  match v with
  | VStr x => eqb x s
  | _ => false
  end.

(** [HTMLToTextConverter.convert(content)] on any value: what is not true
    gives the empty string, a string is converted, and [html.unescape] or
    the parser reject anything else. *)
Definition convert_value (content : value) : option value :=
  if truth content then
    match content with
    | VStr s =>
        match convert (Some s) with
        | Ok out => Some (VStr out)
        | Raise _ => raises
        end
    | _ => raises
    end
  else Some (VStr []).

(** [HTMLToTextConverter.extract_attachments_info(content)], likewise. *)
Definition extract_value (content : value) : option (list attachment) :=
  if truth content then
    match content with
    | VStr s =>
        match extract_attachments_info (Some s) with
        | Ok l => Some l
        | Raise _ => raises
        end
    | _ => raises
    end
  else Some [].

Definition mapM {A B} (f : A -> option B) : list A -> option (list B) :=
  fix go (l : list A) : option (list B) :=
    match l with
    | [] => Some []
    | x :: r => y <~ f x ;; ys <~ go r ;; Some (y :: ys)
    end.

(** [[r.get("emailAddress", {}).get("address", "") for r in
    email_data.get(key, [])]] *)
Definition recipients (email_data : value) (key : str) : option (list value) :=
  rs <~ get email_data key (VList []) ;;
  rs <~ iterate rs ;;
  mapM (fun recipient =>
          address <~ get recipient (u8 "emailAddress") (VDict []) ;;
          get address (u8 "address") (VStr []))
       rs.

(** The dict that [process_email_content] returns. *)
Record email_content := EmailContent {
  ec_id : value;
  ec_subject : value;
  ec_from : value;
  ec_from_name : value;
  ec_to_recipients : list value;
  ec_cc_recipients : list value;
  ec_bcc_recipients : list value;
  ec_received_date : value;
  ec_content_type : value;
  ec_readable_content : value;
  ec_body_preview : value;
  ec_has_attachments : value;
  ec_attachments_info : list attachment;
  ec_importance : value
}.

Definition process_email_content (email_data : value) : option email_content :=
  body <~ get email_data (u8 "body") (VDict []) ;;
  content_type <~ get body (u8 "contentType") (VStr (u8 "text")) ;;
  content <~ get body (u8 "content") (VStr []) ;;
  readable_content <~
    (if is_str content_type (u8 "html") then convert_value content
     else Some content) ;;
  attachments_info <~
    (if is_str content_type (u8 "html") then extract_value content
     else Some []) ;;
  id <~ get email_data (u8 "id") VNone ;;
  subject <~ get email_data (u8 "subject") (VStr (u8 "No subject")) ;;
  from <~
    (sender <~ get email_data (u8 "from") (VDict []) ;;
     address <~ get sender (u8 "emailAddress") (VDict []) ;;
     get address (u8 "address") (VStr (u8 "Unknown"))) ;;
  from_name <~
    (sender <~ get email_data (u8 "from") (VDict []) ;;
     address <~ get sender (u8 "emailAddress") (VDict []) ;;
     get address (u8 "name") (VStr [])) ;;
  to_recipients <~ recipients email_data (u8 "toRecipients") ;;
  cc_recipients <~ recipients email_data (u8 "ccRecipients") ;;
  bcc_recipients <~ recipients email_data (u8 "bccRecipients") ;;
  received_date <~ get email_data (u8 "receivedDateTime") VNone ;;
  body_preview <~ get email_data (u8 "bodyPreview") (VStr []) ;;
  has_attachments <~ get email_data (u8 "hasAttachments") (VBool false) ;;
  importance <~ get email_data (u8 "importance") (VStr (u8 "normal")) ;;
  Some (EmailContent id subject from from_name to_recipients cc_recipients
          bcc_recipients received_date content_type readable_content
          body_preview has_attachments attachments_info importance).

(** What [requests.get] gives: a response with its status and, when the
    body is JSON, the decoded document; or an exception. *)
Inductive response :=
| Response (status_code : N) (json : option value)
| RequestFailed.

(** [get_email_content], as a function of the response to its request:
    [None] is the [None] it returns after printing what went wrong. *)
Definition get_email_content (r : response) : option email_content :=
  match r with
  | Response status_code json =>
      if status_code =? 200 then
        match json with
        | Some email_data => process_email_content email_data
        | None => None
        end
      else None
  | RequestFailed => None
  end.

(** The addresses that [main] reads from a line of input:
    [[email.strip() for email in line.split(",") if email.strip()]] *)
Definition addresses (line : str) : list str :=
  flat_map (fun email => if truthy (strip email) then [strip email] else [])
           (split_on 44 line).

(** The characters that separate addresses. *)
Definition separates (c : char) : bool := isspace c || (c =? 44).

(** An address as [addresses] returns them. *)
Definition well_formed_address (a : str) : Prop :=
  a <> [] /\ strip a = a /\ ~ In 44 a.

(** The keys that [process_email_content] reads in the message. *)
Definition message_keys : list str :=
  map u8 [ "body"; "id"; "subject"; "from"; "toRecipients"; "ccRecipients";
           "bccRecipients"; "receivedDateTime"; "bodyPreview";
           "hasAttachments"; "importance" ]%string.

(** [isinstance(v, dict)] *)
Definition is_dict (v : value) : bool :=
  match v with
  | VDict _ => true
  | _ => false
  end.

(* ================================================================= *)
(** ** Strings: basic facts *)

Lemma eqb_refl (a : str) : eqb a a = true.
Proof.
  induction a as [|x a IH]; simpl; [reflexivity|].
  now rewrite N.eqb_refl.
Qed.

Lemma eqb_eq (a b : str) : eqb a b = true <-> a = b.
Proof.
  split.
  - revert b; induction a as [|x a IH]; intros [|y b]; simpl; try easy.
    intros H; apply andb_true_iff in H as [Hx Hr].
    apply N.eqb_eq in Hx; subst; f_equal; auto.
  - intros ->; apply eqb_refl.
Qed.

Lemma truthy_nonempty (s : str) : truthy s = true <-> s <> [].
Proof. destruct s; simpl; split; congruence. Qed.

(** *** White space at the ends of a string *)

Lemma lstrip_length (s : str) : (List.length (lstrip s) <= List.length s)%nat.
Proof.
  induction s as [|c s IH]; simpl; [lia|].
  destruct (isspace c); simpl; lia.
Qed.

Lemma rstrip_length (s : str) : (List.length (rstrip s) <= List.length s)%nat.
Proof.
  unfold rstrip. rewrite length_rev.
  etransitivity; [apply lstrip_length|]. now rewrite length_rev.
Qed.

Lemma lstrip_fixed (s : str) :
  (List.length s <= List.length (lstrip s))%nat -> lstrip s = s.
Proof.
  destruct s as [|c s]; simpl; [reflexivity|].
  destruct (isspace c); [|reflexivity].
  intros H. pose proof (lstrip_length s). lia.
Qed.

Lemma strip_fixed_l (s : str) : strip s = s -> lstrip s = s.
Proof.
  intros H. apply lstrip_fixed.
  rewrite <- H at 1. apply rstrip_length.
Qed.

Lemma strip_fixed_r (s : str) : strip s = s -> rstrip s = s.
Proof.
  intros H. pose proof (strip_fixed_l s H) as Hl.
  unfold strip in H. now rewrite Hl in H.
Qed.

Lemma lstrip_head (c : char) (s : str) :
  lstrip (c :: s) = c :: s -> isspace c = false.
Proof.
  simpl. destruct (isspace c); [|reflexivity].
  intros H. pose proof (lstrip_length s) as L.
  rewrite H in L. simpl in L. lia.
Qed.

Lemma rstrip_last (c : char) (s : str) :
  rstrip (s ++ [c]) = s ++ [c] -> isspace c = false.
Proof.
  unfold rstrip. rewrite rev_app_distr. simpl. intros H.
  apply (lstrip_head c (rev s)).
  apply (f_equal (@rev char)) in H.
  rewrite rev_involutive, rev_app_distr in H. exact H.
Qed.

Lemma lstrip_all_space (s : str) :
  lstrip s = [] <-> forallb isspace s = true.
Proof.
  induction s as [|c s IH]; simpl; [easy|].
  destruct (isspace c); simpl; [exact IH|easy].
Qed.

Lemma forallb_rev {A} (p : A -> bool) (l : list A) :
  forallb p (rev l) = forallb p l.
Proof.
  induction l as [|x l IH]; simpl; [reflexivity|].
  rewrite forallb_app, IH. simpl. rewrite andb_true_r. apply andb_comm.
Qed.

Lemma lstrip_suffix (s : str) : exists p, s = p ++ lstrip s /\ forallb isspace p = true.
Proof.
  induction s as [|c s (p & E & Hp)]; simpl.
  - now exists [].
  - destruct (isspace c) eqn:Hc.
    + exists (c :: p). simpl. rewrite Hc, Hp. split; [now f_equal|reflexivity].
    + now exists [].
Qed.

(** A string strips to nothing exactly when it is white space only. *)
Lemma strip_empty (s : str) : strip s = [] <-> forallb isspace s = true.
Proof.
  unfold strip, rstrip. split.
  - intros H.
    assert (E : lstrip (rev (lstrip s)) = []).
    { destruct (lstrip (rev (lstrip s))); [reflexivity|].
      apply (f_equal (@List.length char)) in H. rewrite length_rev in H.
      discriminate. }
    apply lstrip_all_space in E. rewrite forallb_rev in E.
    destruct (lstrip_suffix s) as (p & Es & Hp).
    rewrite Es, forallb_app, Hp, E. reflexivity.
  - intros H. apply lstrip_all_space in H. now rewrite H.
Qed.

(* ================================================================= *)
(** ** The tree and the loops over it *)

(** Induction on a tree, with the hypothesis on all the contents. *)
Lemma node_rect_all (P : node -> Prop) :
  (forall s, P (NavigableString s)) ->
  (forall s, P (Comment s)) ->
  (forall nm attrs cs, Forall P cs -> P (Tag nm attrs cs)) ->
  forall n, P n.
Proof.
  intros Hs Hc Ht.
  fix IH 1. intros [s|s|nm attrs cs].
  - apply Hs.
  - apply Hc.
  - apply Ht. induction cs as [|c cs IHcs]; constructor; [apply IH|exact IHcs].
Qed.

Lemma bind_ok {A B} (r : result A) (k : A -> result B) (b : B) :
  bind r k = Ok b -> exists a, r = Ok a /\ k a = Ok b.
Proof. destruct r as [a|e]; simpl; [eauto|discriminate]. Qed.

Lemma flat_mapM_app {A B} (f : A -> result (list B)) (l1 l2 : list A) :
  flat_mapM f (l1 ++ l2)
  = (x <- flat_mapM f l1 ;; y <- flat_mapM f l2 ;; Ok (x ++ y)).
Proof.
  induction l1 as [|a l1 IH]; simpl.
  - destruct (flat_mapM f l2); reflexivity.
  - destruct (f a) as [a'|e]; simpl; [|reflexivity].
    rewrite IH. destruct (flat_mapM f l1); simpl; [|reflexivity].
    destruct (flat_mapM f l2); simpl; [|reflexivity].
    now rewrite app_assoc.
Qed.

Lemma flat_mapM_ok {A B} (f : A -> result (list B)) (l : list A) :
  Forall (fun x => exists y, f x = Ok y) l -> exists r, flat_mapM f l = Ok r.
Proof.
  induction 1 as [|x l (y & Hy) _ (r & Hr)]; simpl; [eauto|].
  rewrite Hy, Hr. simpl. eauto.
Qed.

Lemma flat_mapM_pure {A B} (f : A -> result (list B)) (g : A -> list B)
    (l : list A) :
  Forall (fun x => f x = Ok (g x)) l -> flat_mapM f l = Ok (flat_map g l).
Proof.
  induction 1 as [|x l Hx _ IH]; simpl; [reflexivity|].
  now rewrite Hx, IH.
Qed.

Lemma iterM_ok {A} (f : A -> result unit) (l : list A) :
  Forall (fun x => f x = Ok tt) l -> iterM f l = Ok tt.
Proof.
  induction 1 as [|x l Hx _ IH]; simpl; [reflexivity|].
  now rewrite Hx, IH.
Qed.

Section Loops.

Variable found : node -> bool.
Variable body : element -> result effect.

Lemma visit_tag (nm : str) (attrs : list (str * str)) (cs : list node) :
  visit found body (Tag nm attrs cs)
  = (e <- (if found (Tag nm attrs cs)
           then body (Intact (Tag nm attrs cs)) else Ok Untouched) ;;
     match e with
     | Untouched =>
         cs' <- for_each found body cs ;; Ok [Tag nm attrs cs']
     | Replaced s => for_each found body cs ;;; Ok [NavigableString s]
     | Decomposed => iterM (visit_wiped found body) cs ;;; Ok []
     end).
Proof. reflexivity. Qed.

Lemma for_each_one (n : node) :
  for_each found body [n] = visit found body n.
Proof.
  unfold for_each. simpl.
  destruct (visit found body n); simpl; [|reflexivity].
  now rewrite app_nil_r.
Qed.

Lemma for_each_app (l1 l2 : list node) :
  for_each found body (l1 ++ l2)
  = (x <- for_each found body l1 ;;
     y <- for_each found body l2 ;; Ok (x ++ y)).
Proof. apply flat_mapM_app. Qed.

(** Below a decomposed element nothing is raised when the body accepts a
    wiped element. *)
Lemma visit_wiped_ok (n : node) :
  (exists e, body Wiped = Ok e) -> visit_wiped found body n = Ok tt.
Proof.
  intros (e & He).
  induction n as [s|s|nm attrs cs IH] using node_rect_all; try reflexivity.
  simpl. rewrite He. simpl.
  destruct (found (Tag nm attrs cs)); simpl; now apply iterM_ok.
Qed.

(** A loop whose body accepts every element it finds raises nothing. *)
Lemma for_each_total (soup : list node) :
  (forall n, found n = true -> exists e, body (Intact n) = Ok e) ->
  (exists e, body Wiped = Ok e)
  \/ (forall n, body (Intact n) <> Ok Decomposed) ->
  exists soup', for_each found body soup = Ok soup'.
Proof.
  intros Hbody Hw.
  apply flat_mapM_ok.
  apply Forall_forall. intros n _.
  induction n as [s|s|nm attrs cs IH] using node_rect_all;
    try (simpl; eauto; fail).
  rewrite visit_tag.
  apply flat_mapM_ok in IH. destruct IH as (cs' & Hcs).
  assert (E : exists e,
    (if found (Tag nm attrs cs)
     then body (Intact (Tag nm attrs cs)) else Ok Untouched) = Ok e
    /\ (e = Decomposed -> exists w, body Wiped = Ok w)).
  { destruct (found (Tag nm attrs cs)) eqn:F.
    - destruct (Hbody _ F) as (e & He). exists e. split; [exact He|].
      intros ->. destruct Hw as [Hw|Hw]; [exact Hw|].
      now apply Hw in He.
    - exists Untouched. split; [reflexivity|discriminate]. }
  destruct E as (e & -> & Hd). simpl.
  unfold for_each. destruct e; rewrite ?Hcs; simpl; eauto.
  rewrite iterM_ok; simpl; eauto.
  apply Forall_forall. intros c _. apply visit_wiped_ok. now apply Hd.
Qed.

(** A loop that finds nothing leaves the tree as it is. *)
Lemma for_each_none (soup : list node) :
  find_all found soup = [] -> for_each found body soup = Ok soup.
Proof.
  unfold find_all, descendants, for_each.
  induction soup as [|n soup IHs]; simpl; [reflexivity|].
  rewrite filter_app. intros H. apply app_eq_nil in H as [Hn Hs].
  rewrite (IHs Hs).
  assert (V : visit found body n = Ok [n]).
  { clear IHs Hs soup. revert Hn.
    induction n as [s|s|nm attrs cs IH] using node_rect_all;
      try reflexivity.
    change (subtree (Tag nm attrs cs))
      with (Tag nm attrs cs :: flat_map subtree cs).
    simpl filter. destruct (found (Tag nm attrs cs)) eqn:F; [discriminate|].
    intros Hcs. rewrite visit_tag, F. simpl. unfold for_each.
    assert (E : flat_mapM (visit found body) cs = Ok cs).
    { clear F. induction cs as [|c cs IHcs]; simpl; [reflexivity|].
      simpl in Hcs. rewrite filter_app in Hcs.
      apply app_eq_nil in Hcs as [Hc Hcs].
      inversion IH as [|? ? Hc' Hcs']; subst.
      rewrite (Hc' Hc), (IHcs Hcs' Hcs). reflexivity. }
    now rewrite E. }
  now rewrite V.
Qed.

End Loops.

Example parse_nested :
  BeautifulSoup (u8 "<a href=" ++ quoted [] ++ u8 "><a HREF='x'>t &amp; u</a>")
  = [Tag (u8 "a") [(u8 "href", [])]
       [Tag (u8 "a") [(u8 "href", u8 "x")] [NavigableString (u8 "t & u")]]].
Proof. vm_compute. reflexivity. Qed.

(* ================================================================= *)
(** ** Which loops can raise *)

(** Every loop but that of the links accepts whatever element it is given,
    or never removes one. *)

Lemma unwanted_total (soup : list node) :
  exists soup', for_each (named_any unwanted_tags) decompose soup = Ok soup'.
Proof.
  apply for_each_total; [intros; unfold decompose; eauto|].
  left. unfold decompose. eauto.
Qed.

Lemma heading_pass_total (tag prefix : str) (soup : list node) :
  exists soup', for_each (named tag) (heading_body prefix) soup = Ok soup'.
Proof.
  apply for_each_total.
  - intros n _. unfold heading_body, replace_with.
    destruct (truthy _); eauto.
  - left. exists Untouched. reflexivity.
Qed.

Lemma _process_headings_total (soup : list node) :
  exists soup', _process_headings soup = Ok soup'.
Proof.
  unfold _process_headings.
  generalize heading_map. intros m. revert soup.
  induction m as [|[tag prefix] m IH]; intros soup; simpl; [eauto|].
  destruct (heading_pass_total tag prefix soup) as (s1 & ->). simpl.
  apply IH.
Qed.

Lemma list_pass_total (tag : str) (items : element -> list str)
    (soup : list node) :
  items Wiped = [] ->
  exists soup', for_each (named tag) (list_body items) soup = Ok soup'.
Proof.
  intros W. apply for_each_total.
  - intros n _. unfold list_body, replace_with, decompose.
    destruct (nonempty _); eauto.
  - left. unfold list_body. rewrite W. simpl. unfold decompose. eauto.
Qed.

Lemma _process_lists_total (soup : list node) :
  exists soup', _process_lists soup = Ok soup'.
Proof.
  unfold _process_lists.
  destruct (list_pass_total (u8 "ul") ul_items soup eq_refl) as (s1 & ->).
  simpl. now apply list_pass_total.
Qed.

Lemma _process_tables_total (soup : list node) :
  exists soup', _process_tables soup = Ok soup'.
Proof.
  apply for_each_total.
  - intros n _. unfold table_body, replace_with, decompose.
    destruct (nonempty _); eauto.
  - left. exists Decomposed. reflexivity.
Qed.

Lemma br_pass_total (soup : list node) :
  exists soup', for_each (named (u8 "br")) br_body soup = Ok soup'.
Proof.
  apply for_each_total.
  - intros n _. unfold br_body, replace_with. eauto.
  - right. intros n. unfold br_body, replace_with. discriminate.
Qed.

Lemma p_pass_total (soup : list node) :
  exists soup', for_each (named (u8 "p")) p_body soup = Ok soup'.
Proof.
  apply for_each_total.
  - intros n _. unfold p_body, replace_with, decompose.
    destruct (truthy _); eauto.
  - left. exists Decomposed. reflexivity.
Qed.

Lemma div_pass_total (soup : list node) :
  exists soup', for_each (named (u8 "div")) div_body soup = Ok soup'.
Proof.
  apply for_each_total.
  - intros n _. unfold div_body, replace_with.
    destruct (truthy _); [destruct (negb _)|]; eauto.
  - left. exists Untouched. reflexivity.
Qed.

Lemma _process_paragraphs_total (soup : list node) :
  exists soup', _process_paragraphs soup = Ok soup'.
Proof.
  unfold _process_paragraphs.
  destruct (br_pass_total soup) as (s1 & ->). simpl.
  destruct (p_pass_total s1) as (s2 & ->). simpl.
  apply div_pass_total.
Qed.

(* ================================================================= *)
(** ** One iteration on an element of the document *)

Section Iteration.

Variable found : node -> bool.
Variable body : element -> result effect.
Variables (nm : str) (attrs : list (str * str)) (cs : list node).

Hypothesis is_found : found (Tag nm attrs cs) = true.

Lemma for_each_replaced (s : str) :
  body (Intact (Tag nm attrs cs)) = Ok (Replaced s) ->
  (exists r, for_each found body cs = Ok r) ->
  for_each found body [Tag nm attrs cs] = Ok [NavigableString s].
Proof.
  intros Hb (r & Hr).
  now rewrite for_each_one, visit_tag, is_found, Hb; simpl; rewrite Hr.
Qed.

Lemma for_each_decomposed :
  body (Intact (Tag nm attrs cs)) = Ok Decomposed ->
  (exists e, body Wiped = Ok e) ->
  for_each found body [Tag nm attrs cs] = Ok [].
Proof.
  intros Hb Hw.
  rewrite for_each_one, visit_tag, is_found, Hb; simpl.
  rewrite iterM_ok; [reflexivity|].
  apply Forall_forall. intros c _. now apply visit_wiped_ok.
Qed.


End Iteration.

Lemma named_refl (tag : str) (attrs : list (str * str)) (cs : list node) :
  named tag (Tag tag attrs cs) = true.
Proof. apply eqb_refl. Qed.

Lemma flat_map_filter_map {A B} (p : A -> bool) (g : A -> B) (l : list A) :
  flat_map (fun x => if p x then [g x] else []) l = map g (filter p l).
Proof.
  induction l as [|x l IH]; simpl; [reflexivity|].
  destruct (p x); simpl; now rewrite IH.
Qed.

(* ================================================================= *)
(** ** Lists *)

Lemma list_pass_on_list (tag : str) (items : element -> list str)
    (attrs : list (str * str)) (cs : list node) :
  items Wiped = [] ->
  for_each (named tag) (list_body items) [Tag tag attrs cs]
  = Ok (list_block (items (Intact (Tag tag attrs cs)))).
Proof.
  intros W. unfold list_block.
  destruct (nonempty (items (Intact (Tag tag attrs cs)))) eqn:E.
  - apply for_each_replaced.
    + apply named_refl.
    + unfold list_body. now rewrite E.
    + now apply list_pass_total.
  - apply for_each_decomposed.
    + apply named_refl.
    + unfold list_body. now rewrite E.
    + exists Decomposed. unfold list_body. now rewrite W.
Qed.

Lemma for_each_strings (found : node -> bool) (body : element -> result effect)
    (soup : list node) :
  Forall (fun n => name_of n = None) soup -> for_each found body soup = Ok soup.
Proof.
  intros H. unfold for_each.
  induction H as [|n soup Hn _ IH]; simpl; [reflexivity|].
  rewrite IH. destruct n; try discriminate; reflexivity.
Qed.

Lemma list_block_strings (items : list str) :
  Forall (fun n => name_of n = None) (list_block items).
Proof. unfold list_block. destruct (nonempty items); repeat constructor. Qed.

(** The items of an unordered list: the [li] found at any depth below it
    whose text is not white space only. *)
Lemma ul_items_spec (attrs : list (str * str)) (cs : list node) :
  ul_items (Intact (Tag (u8 "ul") attrs cs))
  = map (fun t => u8 "  • " ++ t)
      (filter truthy
         (map (fun li => strip (get_text li)) (find_all (named (u8 "li")) cs))).
Proof.
  unfold ul_items, find_all_in. simpl children.
  generalize (find_all (named (u8 "li")) cs). intros l.
  induction l as [|x l IH]; [reflexivity|].
  cbn [flat_map map filter]. rewrite IH. cbv beta zeta.
  now destruct (truthy (strip (get_text x))).
Qed.

(** The items of an ordered list: the [li] found below it are numbered
    from 1, all of them, and then those with no text are left out. *)
Lemma ol_items_spec (attrs : list (str * str)) (cs : list node) :
  ol_items (Intact (Tag (u8 "ol") attrs cs))
  = map (fun '(i, li) => u8 "  " ++ of_nat i ++ u8 ". " ++ strip (get_text li))
      (filter (fun '(i, li) => truthy (strip (get_text li)))
         (enumerate1 (find_all (named (u8 "li")) cs))).
Proof.
  unfold ol_items, find_all_in. simpl children.
  generalize (enumerate1 (find_all (named (u8 "li")) cs)). intros l.
  induction l as [|[i x] l IH]; [reflexivity|].
  cbn [flat_map map filter]. rewrite IH. cbv beta zeta.
  now destruct (truthy (strip (get_text x))).
Qed.

Lemma enumerate1_indices {A} (l : list A) :
  map fst (enumerate1 l) = seq 1 (List.length l)
  /\ map snd (enumerate1 l) = l.
Proof.
  unfold enumerate1. generalize 1%nat.
  induction l as [|x l IH]; intros k; simpl; [easy|].
  destruct (IH (S k)) as [E1 E2]. now rewrite E1, E2.
Qed.

(** C1, as stated, fails on the example of the claim: the text returned by
    [convert] for the two-item ordered list is [1. x] and [2. y] on two
    lines, and neither the line [  1. x] nor the text [  1. x] occurs in it:
    the last step of [convert] strips every line. *)
Lemma C1_counterexample :
  convert (Some ol_xy) = Ok (u8 "1. x" ++ [nl] ++ u8 "2. y")
  /\ ~ In (u8 "  1. x") (split_on nl (u8 "1. x" ++ [nl] ++ u8 "2. y"))
  /\ contains (u8 "  1. x") (u8 "1. x" ++ [nl] ++ u8 "2. y") = false.
Proof.
  split; [vm_compute; reflexivity|]. split; [|vm_compute; reflexivity].
  vm_compute. intros [H|[H|[]]]; discriminate.
Qed.

(** C1, amended: the loop on the ordered lists numbers all the [li] found
    below a list from 1 on, in document order, and leaves out the items
    whose trimmed text is empty after they have been numbered; the list is
    replaced by the lines [  i. text] between two newlines, or removed when
    no item is left.  For the two-item list of the claim the replacement has
    the lines [  1. x] and [  2. y] and [convert] returns [1. x] and
    [2. y]; with an empty item in the middle the numbers are 1 and 3. *)
Theorem C1_ordered_list_numbering (attrs : list (str * str)) (cs : list node) :
  let lis := find_all (named (u8 "li")) cs in
  let numbered := enumerate1 lis in
  let items :=
    map (fun '(i, li) => u8 "  " ++ of_nat i ++ u8 ". " ++ strip (get_text li))
        (filter (fun '(i, li) => truthy (strip (get_text li))) numbered) in
  for_each (named (u8 "ol")) (list_body ol_items) [Tag (u8 "ol") attrs cs]
  = Ok (if nonempty items
        then [NavigableString ([nl] ++ join [nl] items ++ [nl])]
        else [])
  /\ map fst numbered = seq 1 (List.length lis)
  /\ map snd numbered = lis
  /\ _process_lists (BeautifulSoup ol_xy)
     = Ok [NavigableString
             ([nl] ++ u8 "  1. x" ++ [nl] ++ u8 "  2. y" ++ [nl])]
  /\ convert (Some ol_xy) = Ok (u8 "1. x" ++ [nl] ++ u8 "2. y")
  /\ _process_lists (BeautifulSoup ol_gap)
     = Ok [NavigableString
             ([nl] ++ u8 "  1. x" ++ [nl] ++ u8 "  3. y" ++ [nl])]
  /\ convert (Some ol_gap) = Ok (u8 "1. x" ++ [nl] ++ u8 "3. y")
  /\ convert (Some (u8 "<ol><li> </li><li></li></ol>")) = Ok [].
Proof.
  intros lis numbered items.
  split.
  { rewrite list_pass_on_list by reflexivity.
    unfold list_block. now rewrite ol_items_spec. }
  split; [apply enumerate1_indices|].
  split; [apply enumerate1_indices|].
  repeat split; vm_compute; reflexivity.
Qed.

(** C6, as stated, fails on the example of the claim: [convert] returns
    the lines [• a] and [• b], without the two spaces in front of the
    bullet. *)
Lemma C6_counterexample :
  convert (Some ul_ab) = Ok (u8 "• a" ++ [nl] ++ u8 "• b")
  /\ ~ In (u8 "  • a") (split_on nl (u8 "• a" ++ [nl] ++ u8 "• b"))
  /\ ~ In (u8 "  • b") (split_on nl (u8 "• a" ++ [nl] ++ u8 "• b")).
Proof.
  split; [vm_compute; reflexivity|].
  split; vm_compute; intros [H|[H|[]]]; discriminate.
Qed.

(** C6, amended: [_process_lists] collects the trimmed text of every [li]
    found below an unordered list, at any depth; the items with non-empty
    text become the lines [  • text], joined with newlines, and the list is
    replaced by that block with one newline before it and one after it;
    a list with no such item is removed.  For the list of the claim the
    block has the lines [  • a] and [  • b], and [convert] returns [• a]
    and [• b]. *)
Theorem C6_unordered_list (attrs : list (str * str)) (cs : list node) :
  let items :=
    map (fun t => u8 "  • " ++ t)
        (filter truthy
           (map (fun li => strip (get_text li))
                (find_all (named (u8 "li")) cs))) in
  _process_lists [Tag (u8 "ul") attrs cs]
  = Ok (if nonempty items
        then [NavigableString ([nl] ++ join [nl] items ++ [nl])]
        else [])
  /\ _process_lists (BeautifulSoup ul_ab)
     = Ok [NavigableString
             ([nl] ++ u8 "  • a" ++ [nl] ++ u8 "  • b" ++ [nl])]
  /\ convert (Some ul_ab) = Ok (u8 "• a" ++ [nl] ++ u8 "• b")
  /\ _process_lists (BeautifulSoup ul_nested)
     = Ok [NavigableString
             ([nl] ++ u8 "  • ab" ++ [nl] ++ u8 "  • b" ++ [nl])]
  /\ convert (Some (u8 "<ul><li> </li><li></li></ul>")) = Ok [].
Proof.
  intros items. split.
  { unfold _process_lists.
    rewrite list_pass_on_list by reflexivity. simpl bind.
    rewrite for_each_strings by apply list_block_strings.
    unfold list_block. now rewrite ul_items_spec. }
  repeat split; vm_compute; reflexivity.
Qed.

(* ================================================================= *)
(** ** Loops that pass an element by *)

Lemma find_all_weaken (p q : node -> bool) (cs : list node) :
  (forall n, p n = true -> q n = true) ->
  find_all q cs = [] -> find_all p cs = [].
Proof.
  unfold find_all. intros Hpq. induction (descendants cs) as [|n l IH]; simpl.
  - reflexivity.
  - destruct (q n) eqn:Q; [discriminate|]. intros H.
    destruct (p n) eqn:P; [|auto].
    apply Hpq in P. congruence.
Qed.

Lemma named_in_any (tag : str) (tags : list str) (n : node) :
  In tag tags -> named tag n = true -> named_any tags n = true.
Proof.
  intros Hin Hn. unfold named_any. apply existsb_exists. eauto.
Qed.

Lemma find_all_one (p : node -> bool) (nm : str) (attrs : list (str * str))
    (cs : list node) :
  find_all p [Tag nm attrs cs]
  = (if p (Tag nm attrs cs) then [Tag nm attrs cs] else []) ++ find_all p cs.
Proof.
  unfold find_all, descendants. simpl. rewrite app_nil_r.
  now destruct (p (Tag nm attrs cs)).
Qed.

(** A loop that looks for another name, on an element with nothing of that
    name below it. *)
Lemma for_each_other (p : node -> bool) (body : element -> result effect)
    (nm : str) (attrs : list (str * str)) (cs : list node) :
  p (Tag nm attrs cs) = false -> find_all p cs = [] ->
  for_each p body [Tag nm attrs cs] = Ok [Tag nm attrs cs].
Proof.
  intros Hp Hcs. apply for_each_none. now rewrite find_all_one, Hp, Hcs.
Qed.

(* ================================================================= *)
(** ** Headings *)

Lemma heading_pass_on_heading (tag prefix : str) (attrs : list (str * str))
    (cs : list node) :
  strip (flat_map get_text cs) <> [] ->
  for_each (named tag) (heading_body prefix) [Tag tag attrs cs]
  = Ok [NavigableString
          ([nl; nl] ++ prefix ++ upper (strip (flat_map get_text cs)) ++ [nl]
           ++ replace_char sp 61 prefix ++ [nl])].
Proof.
  intros Ht. apply truthy_nonempty in Ht.
  apply for_each_replaced.
  - apply named_refl.
  - unfold heading_body. simpl text_of. now rewrite Ht.
  - apply heading_pass_total.
Qed.

(** C2, as stated, fails on the example of the claim: under the heading
    [convert] writes seven equals signs, not six, and no line of the result
    is made of exactly six. *)
Lemma C2_counterexample :
  convert (Some h1_title) = Ok (u8 "====== TITLE" ++ [nl] ++ rule 7)
  /\ ~ In (rule 6) (split_on nl (u8 "====== TITLE" ++ [nl] ++ rule 7)).
Proof.
  split; [vm_compute; reflexivity|].
  vm_compute. intros [H|[H|[]]]; discriminate.
Qed.

(** C2, amended: a heading of level 1 to 6 whose trimmed text is not empty
    is replaced by two newlines, a marker of 7 minus level equals signs, a
    space, the text in upper case, a newline, an underline of 8 minus level
    equals signs (as wide as the marker and its space together) and a
    newline.  The loop of its level does that whatever is inside the
    heading, and so does [_process_headings] as a whole when no other
    heading is inside it.  [convert] turns the level-1 heading [Title] into
    the line [====== TITLE] followed by a line of seven equals signs. *)
Theorem C2_heading_block (level : nat) (tag prefix : str)
    (attrs : list (str * str)) (cs : list node) :
  In (level, (tag, prefix)) (enumerate1 heading_map) ->
  strip (flat_map get_text cs) <> [] ->
  let block :=
    [nl; nl] ++ rule (7 - level) ++ [sp]
    ++ upper (strip (flat_map get_text cs)) ++ [nl]
    ++ rule (8 - level) ++ [nl] in
  tag = u8 "h" ++ of_nat level
  /\ for_each (named tag) (heading_body prefix) [Tag tag attrs cs]
     = Ok [NavigableString block]
  /\ (find_all (named_any (map fst heading_map)) cs = [] ->
      _process_headings [Tag tag attrs cs] = Ok [NavigableString block])
  /\ convert (Some h1_title) = Ok (u8 "====== TITLE" ++ [nl] ++ rule 7).
Proof.
  intros Hin Ht block.
  assert (Hpass := fun tag prefix =>
            heading_pass_on_heading tag prefix attrs cs Ht).
  assert (Hskip : forall tag' body,
            In tag' (map fst heading_map) ->
            find_all (named_any (map fst heading_map)) cs = [] ->
            named tag' (Tag tag attrs cs) = false ->
            for_each (named tag') body [Tag tag attrs cs]
            = Ok [Tag tag attrs cs]).
  { intros tag' body Hin' Hnone Hne. apply for_each_other; [exact Hne|].
    revert Hnone. apply find_all_weaken. intros n. now apply named_in_any. }
  assert (Hstr : forall tag' body s,
            for_each (named tag') body [NavigableString s]
            = Ok [NavigableString s]) by reflexivity.
  unfold enumerate1, heading_map in Hin. cbn [List.length seq combine In] in Hin.
  repeat split; try (vm_compute; reflexivity);
    destruct Hin as [E|[E|[E|[E|[E|[E|[]]]]]]];
    injection E as <- <- <-; subst block;
    try reflexivity;
    try (rewrite Hpass; reflexivity).
  all: intros Hnone; unfold _process_headings, heading_map; cbn [foldM].
  all: repeat first
         [ rewrite Hpass; cbn [bind]
         | rewrite Hstr; cbn [bind]
         | rewrite Hskip;
           [cbn [bind] | cbn; tauto | exact Hnone | reflexivity] ].
  all: reflexivity.
Qed.

Lemma C2_heading_block_witness :
  _process_headings [Tag (u8 "h2") [] [NavigableString (u8 " News ")]]
  = Ok [NavigableString
          ([nl; nl] ++ u8 "===== NEWS" ++ [nl] ++ u8 "======" ++ [nl])].
Proof.
  destruct (C2_heading_block 2 (u8 "h2") (u8 "===== ") []
              [NavigableString (u8 " News ")]) as (_ & _ & H & _).
  - vm_compute. tauto.
  - vm_compute. discriminate.
  - rewrite H; reflexivity.
Defined.

(* ================================================================= *)
(** ** Links *)

Lemma named_with_found (tag k v : str) (attrs : list (str * str))
    (cs : list node) :
  lookup k attrs = Some v -> named_with tag k (Tag tag attrs cs) = true.
Proof. intros H. simpl. now rewrite eqb_refl, H. Qed.

(** What the loop on the links does to one anchor with a destination. *)
Lemma link_body_spec (nm href : str) (attrs : list (str * str))
    (cs : list node) :
  lookup (u8 "href") attrs = Some href ->
  let t := strip (flat_map get_text cs) in
  let u := strip href in
  link_body (Intact (Tag nm attrs cs))
  = Ok (if truthy t && truthy u then
          if eqb t u then Replaced u else Replaced (t ++ u8 " [" ++ u ++ u8 "]")
        else if truthy t then Replaced t
        else if truthy u then Replaced u
        else Decomposed).
Proof.
  intros H t u. unfold link_body. simpl item. rewrite H. simpl bind.
  fold t u. destruct (truthy t), (truthy u); simpl; try reflexivity.
  now destruct (eqb t u).
Qed.

Lemma filter_flat_map_nil {A B} (p : B -> bool) (f : A -> list B)
    (l : list A) :
  filter p (flat_map f l) = [] -> Forall (fun x => filter p (f x) = []) l.
Proof.
  induction l as [|x l IH]; simpl; [constructor|].
  rewrite filter_app. intros H. apply app_eq_nil in H as [Hx Hl].
  constructor; auto.
Qed.

(** Below a decomposed element in which the loop has found nothing, there
    is nothing left for the loop to do. *)
Lemma visit_wiped_none (found : node -> bool) (body : element -> result effect)
    (cs : list node) :
  find_all found cs = [] -> iterM (visit_wiped found body) cs = Ok tt.
Proof.
  unfold find_all, descendants. intros H.
  apply iterM_ok. apply filter_flat_map_nil in H.
  induction H as [|n cs Hn _ IHcs]; constructor; [|exact IHcs].
  clear IHcs cs. revert Hn.
  induction n as [s|s|nm attrs cs IH] using node_rect_all; try reflexivity.
  change (subtree (Tag nm attrs cs))
    with (Tag nm attrs cs :: flat_map subtree cs).
  simpl filter. destruct (found (Tag nm attrs cs)) eqn:F; [discriminate|].
  intros Hcs. cbn [visit_wiped]. rewrite F. simpl bind.
  apply iterM_ok. apply filter_flat_map_nil in Hcs.
  rewrite Forall_forall in *. auto.
Qed.

(** With no other anchor inside the anchor, the loop ends and the anchor
    has become what its body computed. *)
Lemma link_pass_on_link (href : str) (attrs : list (str * str))
    (cs : list node) :
  lookup (u8 "href") attrs = Some href ->
  find_all (named_with (u8 "a") (u8 "href")) cs = [] ->
  _process_links [Tag (u8 "a") attrs cs]
  = match link_body (Intact (Tag (u8 "a") attrs cs)) with
    | Ok (Replaced s) => Ok [NavigableString s]
    | Ok Decomposed => Ok []
    | Ok Untouched => Ok [Tag (u8 "a") attrs cs]
    | Raise e => Raise e
    end.
Proof.
  intros H Hnone. unfold _process_links.
  pose proof (named_with_found (u8 "a") _ _ attrs cs H) as F.
  pose proof (for_each_none _ link_body cs Hnone) as Hcs.
  pose proof (visit_wiped_none _ link_body cs Hnone) as Hw.
  rewrite for_each_one, visit_tag, F.
  destruct (link_body (Intact (Tag (u8 "a") attrs cs))) as [[|s|]|e];
    simpl; rewrite ?Hcs, ?Hw; reflexivity.
Qed.

(** An anchor with a destination, with [t] its trimmed text and [u] its
    trimmed destination, is replaced by [t [u]] when both are non-empty and
    differ, by [u] when both are non-empty and equal, by [t] when only [t]
    is non-empty, by [u] when only [u] is non-empty, and is removed when
    both are empty.  That is what the body of the loop does to every such
    anchor, and what [_process_links] returns for an anchor with no other
    anchor inside it.  [convert] returns [here [http://e.com]] and
    [http://e.com] for the two examples. *)
Lemma link_replacement_cases (href : str) (attrs : list (str * str))
    (cs : list node) :
  lookup (u8 "href") attrs = Some href ->
  let t := strip (flat_map get_text cs) in
  let u := strip href in
  let link := Tag (u8 "a") attrs cs in
  let alone := find_all (named_with (u8 "a") (u8 "href")) cs = [] in
  (t <> [] -> u <> [] -> t <> u ->
   link_body (Intact link) = Ok (Replaced (t ++ u8 " [" ++ u ++ u8 "]"))
   /\ (alone -> _process_links [link]
                = Ok [NavigableString (t ++ u8 " [" ++ u ++ u8 "]")]))
  /\ (t <> [] -> u <> [] -> t = u ->
      link_body (Intact link) = Ok (Replaced u)
      /\ (alone -> _process_links [link] = Ok [NavigableString u]))
  /\ (t <> [] -> u = [] ->
      link_body (Intact link) = Ok (Replaced t)
      /\ (alone -> _process_links [link] = Ok [NavigableString t]))
  /\ (t = [] -> u <> [] ->
      link_body (Intact link) = Ok (Replaced u)
      /\ (alone -> _process_links [link] = Ok [NavigableString u]))
  /\ (t = [] -> u = [] ->
      link_body (Intact link) = Ok Decomposed
      /\ (alone -> _process_links [link] = Ok []))
  /\ convert (Some a_here) = Ok (u8 "here [http://e.com]")
  /\ convert (Some a_same) = Ok (u8 "http://e.com").
Proof.
  intros H t u link alone.
  pose proof (link_body_spec (u8 "a") href attrs cs H) as B.
  pose proof (link_pass_on_link href attrs cs H) as P.
  cbv zeta in B. fold t u link in B, P.
  assert (T : forall s : str, s <> [] -> truthy s = true)
    by (intros s; apply truthy_nonempty).
  repeat match goal with |- _ /\ _ => split end;
    try (vm_compute; reflexivity); intros.
  - rewrite (T t), (T u) in B by assumption. simpl in B.
    destruct (eqb t u) eqn:E; [apply eqb_eq in E; contradiction|].
    split; [exact B|]. intros A. now rewrite (P A), B.
  - rewrite (T t), (T u) in B by assumption. simpl in B.
    replace (eqb t u) with true in B by (symmetry; now apply eqb_eq).
    split; [exact B|]. intros A. now rewrite (P A), B.
  - rewrite (T t) in B by assumption.
    replace (truthy u) with false in B by (now replace u with (@nil char)).
    simpl in B. split; [exact B|]. intros A. now rewrite (P A), B.
  - rewrite (T u) in B by assumption.
    replace (truthy t) with false in B by (now replace t with (@nil char)).
    simpl in B. split; [exact B|]. intros A. now rewrite (P A), B.
  - replace (truthy u) with false in B by (now replace u with (@nil char)).
    replace (truthy t) with false in B by (now replace t with (@nil char)).
    simpl in B. split; [exact B|]. intros A. now rewrite (P A), B.
Qed.

Lemma link_replacement_cases_example :
  _process_links
    [Tag (u8 "a") [(u8 "href", u8 " http://e.com ")]
       [NavigableString (u8 "here")]]
  = Ok [NavigableString (u8 "here [http://e.com]")].
Proof.
  destruct (link_replacement_cases (u8 " http://e.com ")
              [(u8 "href", u8 " http://e.com ")]
              [NavigableString (u8 "here")] eq_refl) as (H & _).
  destruct H as (_ & H); try (vm_compute; discriminate).
  apply H. reflexivity.
Defined.

(** C3 does not hold of every anchor that [convert] processes.  In
    [a_in_a] the outer anchor has an empty text and an empty destination,
    and is to be dropped; the anchor inside it has an empty text and the
    destination [x], and is to be replaced by [x], as the loop does when
    that anchor stands alone.  On the document, the loop removes the outer
    anchor and then raises [TypeError] on the inner one, and [convert] ends
    with that exception; it does so too when the two anchors are inside an
    anchor that has a text and a destination of its own. *)
Theorem C3_anchor_in_removed_anchor_raises :
  let inner := Tag (u8 "a") [(u8 "href", u8 "x")] [] in
  let outer := Tag (u8 "a") [(u8 "href", [])] [inner] in
  let around := Tag (u8 "a") [(u8 "href", u8 "u")]
                    [NavigableString (u8 "t"); outer] in
  BeautifulSoup (Html.unescape a_in_a) = [outer]
  /\ strip (get_text inner) = []
  /\ strip (href_of inner) = u8 "x"
  /\ link_body (Intact inner) = Ok (Replaced (u8 "x"))
  /\ _process_links [inner] = Ok [NavigableString (u8 "x")]
  /\ strip (get_text outer) = []
  /\ strip (href_of outer) = []
  /\ link_body (Intact outer) = Ok Decomposed
  /\ _process_links [outer] = Raise TypeError
  /\ convert (Some a_in_a) = Raise TypeError
  /\ BeautifulSoup (Html.unescape (u8 "<a href='u'>t" ++ a_in_a ++ u8 "</a>"))
     = [around]
  /\ link_body (Intact around) = Ok (Replaced (u8 "t [u]"))
  /\ _process_links [around] = Raise TypeError
  /\ convert (Some (u8 "<a href='u'>t" ++ a_in_a ++ u8 "</a>"))
     = Raise TypeError.
Proof. repeat split; vm_compute; reflexivity. Qed.

(* ================================================================= *)
(** ** Block containers *)






(* ================================================================= *)
(** ** Attachment references *)

Lemma named_with_inv (tag k : str) (n : node) :
  named_with tag k n = true ->
  exists attrs cs v, n = Tag tag attrs cs /\ lookup k attrs = Some v.
Proof.
  destruct n as [s|s|nm attrs cs]; simpl; try discriminate.
  intros H. apply andb_true_iff in H as [E L].
  apply eqb_eq in E. subst.
  destruct (lookup k attrs) as [v|] eqn:Lk; [|discriminate].
  now exists attrs, cs, v.
Qed.

Lemma attachment_of_link (link : node) :
  named_with (u8 "a") (u8 "href") link = true ->
  attachment_of link
  = Ok (if mentions_attachment link
        then [Attachment (strip (get_text link)) (href_of link)]
        else []).
Proof.
  intros H. apply named_with_inv in H as (attrs & cs & v & -> & L).
  unfold attachment_of, mentions_attachment, href_of, getitem.
  rewrite L. cbn [bind]. now destruct (existsb _ keywords).
Qed.

(** The references harvested from a tree: one for each anchor with a
    destination whose text names an attachment, in the order of
    [find_all]. *)
Lemma attachments_of_soup (soup : list node) :
  let links := find_all (named_with (u8 "a") (u8 "href")) soup in
  flat_mapM attachment_of links
  = Ok (map (fun link => Attachment (strip (get_text link)) (href_of link))
            (filter mentions_attachment links)).
Proof.
  intros links.
  rewrite <- flat_map_filter_map. apply flat_mapM_pure.
  apply Forall_forall. intros link Hin.
  apply attachment_of_link.
  unfold links, find_all in Hin. now apply filter_In in Hin.
Qed.

(** C8: the loop of [extract_attachments_info] gives, for every tree, one
    pair for each anchor that has a destination and whose trimmed text, in
    lower case, contains one of the five keywords; the pairs come in
    document order, none is merged with another; the name is the trimmed
    text as written, the url the destination as it stands in the attribute;
    an anchor without a destination gives nothing.  Whenever
    [extract_attachments_info] returns a list, it is that of the tree of
    its input. *)
Theorem C8_attachment_references (html : str) (l : list attachment)
    (soup : list node) :
  let as_pair link := Attachment (strip (get_text link)) (href_of link) in
  let anchors s := find_all (named_with (u8 "a") (u8 "href")) s in
  flat_mapM attachment_of (anchors soup)
  = Ok (map as_pair (filter mentions_attachment (anchors soup)))
  /\ (html <> [] ->
      extract_attachments_info (Some html) = Ok l ->
      l = map as_pair
            (filter mentions_attachment (anchors (BeautifulSoup html))))
  /\ Forall (fun link =>
               exists attrs cs v,
                 link = Tag (u8 "a") attrs cs
                 /\ lookup (u8 "href") attrs = Some v)
            (anchors soup)
  /\ keywords = [ u8 "attachment"; u8 "вложение"; u8 "файл";
                  u8 "download"; u8 "скачать" ]
  /\ extract_attachments_info (Some a_download)
     = Ok [Attachment (u8 "Download file") (u8 "f.pdf")]
  /\ extract_attachments_info (Some (a_download ++ a_download))
     = Ok [Attachment (u8 "Download file") (u8 "f.pdf");
           Attachment (u8 "Download file") (u8 "f.pdf")]
  /\ extract_attachments_info
       (Some (u8 "<a name='n'>Download</a><a href=' g '> Файл 1 </a>"))
     = Ok [Attachment (u8 "Файл 1") (u8 " g ")].
Proof.
  intros as_pair anchors.
  split; [apply attachments_of_soup|].
  split.
  { intros Hne H. destruct html as [|c html]; [contradiction|].
    cbn [extract_attachments_info] in H.
    rewrite (attachments_of_soup (BeautifulSoup (c :: html))) in H.
    now injection H as <-. }
  split.
  { apply Forall_forall. intros link Hin.
    apply named_with_inv. unfold anchors, find_all in Hin.
    now apply filter_In in Hin. }
  repeat split; vm_compute; reflexivity.
Qed.

Lemma C8_attachment_references_witness :
  [Attachment (u8 "Download file") (u8 "f.pdf")]
  = map (fun link => Attachment (strip (get_text link)) (href_of link))
        (filter mentions_attachment
           (find_all (named_with (u8 "a") (u8 "href"))
              (BeautifulSoup a_download))).
Proof.
  destruct (C8_attachment_references a_download
              [Attachment (u8 "Download file") (u8 "f.pdf")] [])
    as (_ & H & _).
  apply H; [discriminate|vm_compute; reflexivity].
Defined.

(** C10: [convert] parses the text that [html.unescape] has already
    decoded, [extract_attachments_info] parses the text as it came; the
    parser decodes character references itself, so a reference encoded
    twice reaches the text of [convert] fully decoded and the name reported
    by [extract_attachments_info] still encoded once. *)
Theorem C10_decoded_twice_or_once (c : char) (html : str) :
  convert (Some (c :: html))
  = (soup <- rewrite (BeautifulSoup (Html.unescape (c :: html))) ;;
     Ok (strip (_finalize_formatting (soup_text soup))))
  /\ extract_attachments_info (Some (c :: html))
     = flat_mapM attachment_of
         (find_all (named_with (u8 "a") (u8 "href"))
                   (BeautifulSoup (c :: html)))
  /\ BeautifulSoup (Html.unescape (u8 "&amp;amp;")) = [NavigableString (u8 "&")]
  /\ BeautifulSoup (u8 "&amp;amp;") = [NavigableString (u8 "&amp;")]
  /\ convert (Some a_twice_encoded) = Ok (u8 "download & [f.pdf]")
  /\ extract_attachments_info (Some a_twice_encoded)
     = Ok [Attachment (u8 "download &amp;") (u8 "f.pdf")].
Proof.
  split; [reflexivity|]. split; [reflexivity|].
  repeat split; vm_compute; reflexivity.
Qed.

(* ================================================================= *)
(** ** Errors *)

(** C9 does not hold of [convert].  Empty and absent input give the empty
    result, the loop of [extract_attachments_info] returns a list for every
    tree, and every loop of [convert] but one returns for every tree.  The
    loop on the links does not: when it removes an anchor whose text and
    destination are both empty, the anchors inside it are still in the list
    the loop runs over, and [link["href"]] on such an anchor, wiped by
    [decompose], raises [TypeError].  For an empty anchor around another
    anchor, [convert] ends with that exception. *)
Theorem C9_convert_raises_on_nested_empty_anchor :
  convert None = Ok []
  /\ convert (Some []) = Ok []
  /\ extract_attachments_info None = Ok []
  /\ extract_attachments_info (Some []) = Ok []
  /\ (forall soup, exists l,
        flat_mapM attachment_of
          (find_all (named_with (u8 "a") (u8 "href")) soup) = Ok l)
  /\ (forall soup, exists soup',
        for_each (named_any unwanted_tags) decompose soup = Ok soup')
  /\ (forall soup, exists soup', _process_headings soup = Ok soup')
  /\ (forall soup, exists soup', _process_lists soup = Ok soup')
  /\ (forall soup, exists soup', _process_tables soup = Ok soup')
  /\ (forall soup, exists soup', _process_paragraphs soup = Ok soup')
  /\ BeautifulSoup a_in_a
     = [Tag (u8 "a") [(u8 "href", [])] [Tag (u8 "a") [(u8 "href", u8 "x")] []]]
  /\ link_body (Intact (Tag (u8 "a") [(u8 "href", [])]
                          [Tag (u8 "a") [(u8 "href", u8 "x")] []]))
     = Ok Decomposed
  /\ link_body Wiped = Raise TypeError
  /\ convert (Some a_in_a) = Raise TypeError.
Proof.
  repeat match goal with |- _ /\ _ => split end;
    try (vm_compute; reflexivity).
  - intros soup. rewrite attachments_of_soup. eauto.
  - apply unwanted_total.
  - apply _process_headings_total.
  - apply _process_lists_total.
  - apply _process_tables_total.
  - apply _process_paragraphs_total.
Qed.

(* ================================================================= *)
(** ** Elements with no text, and tables *)

Lemma forallb_flat_map {A B} (p : B -> bool) (f : A -> list B) (l : list A) :
  forallb p (flat_map f l) = forallb (fun x => forallb p (f x)) l.
Proof.
  induction l as [|x l IH]; simpl; [reflexivity|].
  now rewrite forallb_app, IH.
Qed.

(** Below an element whose text is white space only, every element has a
    text that is white space only. *)
Lemma blank_below (n d : node) :
  forallb isspace (get_text n) = true ->
  In d (subtree n) -> forallb isspace (get_text d) = true.
Proof.
  induction n as [s|s|nm attrs cs IH] using node_rect_all.
  - intros H [<-|[]]. exact H.
  - intros H [<-|[]]. exact H.
  - intros H [<-|Hin]; [exact H|].
    simpl in H. rewrite forallb_flat_map in H.
    apply in_flat_map in Hin as (c & Hc & Hd).
    rewrite Forall_forall in IH. apply (IH c Hc); [|exact Hd].
    rewrite forallb_forall in H. now apply H.
Qed.

Lemma blank_found (p : node -> bool) (cs : list node) (d : node) :
  strip (flat_map get_text cs) = [] ->
  In d (find_all p cs) -> strip (get_text d) = [].
Proof.
  intros H Hin. apply strip_empty. apply strip_empty in H.
  unfold find_all, descendants in Hin.
  apply filter_In in Hin as [Hin _].
  apply in_flat_map in Hin as (c & Hc & Hd).
  apply (blank_below c d); [|exact Hd].
  rewrite forallb_flat_map in H. rewrite forallb_forall in H. now apply H.
Qed.

Lemma table_rows_spec (attrs : list (str * str)) (cs : list node) :
  table_rows (Intact (Tag (u8 "table") attrs cs))
  = map (fun tr => join (u8 " | ") (cells_of tr))
        (filter (fun tr => nonempty (cells_of tr))
                (find_all (named (u8 "tr")) cs)).
Proof.
  unfold table_rows, find_all_in. simpl children.
  generalize (find_all (named (u8 "tr")) cs). intros l.
  induction l as [|x l IH]; [reflexivity|].
  cbn [flat_map map filter]. rewrite IH. cbv beta zeta. fold (cells_of x).
  now destruct (nonempty (cells_of x)).
Qed.

Lemma table_pass_on_table (attrs : list (str * str)) (cs : list node) :
  let rows := table_rows (Intact (Tag (u8 "table") attrs cs)) in
  _process_tables [Tag (u8 "table") attrs cs]
  = Ok (if nonempty rows
        then [NavigableString
                ([nl] ++ join [nl] (map (fun row => u8 "  " ++ row) rows)
                 ++ [nl])]
        else []).
Proof.
  intros rows. unfold _process_tables.
  destruct (nonempty rows) eqn:E.
  - apply for_each_replaced.
    + apply named_refl.
    + unfold table_body. fold rows. now rewrite E.
    + apply _process_tables_total.
  - apply for_each_decomposed.
    + apply named_refl.
    + unfold table_body. fold rows. now rewrite E.
    + exists Decomposed. reflexivity.
Qed.

(** C4, as stated, fails for tables: a table whose two cells hold a space
    each has no text but white space, yet it is not removed; it is replaced
    by a row of separators, and [convert] returns [|]. *)
Lemma C4_counterexample :
  strip (soup_text (BeautifulSoup table_blank)) = []
  /\ _process_tables (BeautifulSoup table_blank)
     = Ok [NavigableString ([nl] ++ u8 "   | " ++ [nl])]
  /\ convert (Some table_blank) = Ok (u8 "|").
Proof. repeat split; vm_compute; reflexivity. Qed.

(** C4, amended: a heading, a paragraph or a list whose text is white space
    only gets no block of text: the paragraph and the list are removed, and
    the heading is not replaced by anything.  For a table, the trimmed texts
    of the [td] and [th] cells of each [tr] are joined with [ | ]; every row
    that has a cell, whatever the text of its cells, gives a line; the
    lines, each after two spaces, are joined with newlines, and that block
    between two newlines replaces the table; a table none of whose rows has
    a cell is removed. *)
Theorem C4_blank_elements_and_tables (attrs : list (str * str))
    (cs table_cs : list node) :
  strip (flat_map get_text cs) = [] ->
  (forall tag prefix s,
      heading_body prefix (Intact (Tag tag attrs cs)) <> Ok (Replaced s))
  /\ for_each (named (u8 "p")) p_body [Tag (u8 "p") attrs cs] = Ok []
  /\ _process_lists [Tag (u8 "ul") attrs cs] = Ok []
  /\ for_each (named (u8 "ol")) (list_body ol_items) [Tag (u8 "ol") attrs cs]
     = Ok []
  /\ (let rows :=
        map (fun tr => join (u8 " | ") (cells_of tr))
            (filter (fun tr => nonempty (cells_of tr))
                    (find_all (named (u8 "tr")) table_cs)) in
      _process_tables [Tag (u8 "table") attrs table_cs]
      = Ok (if nonempty rows
            then [NavigableString
                    ([nl] ++ join [nl] (map (fun row => u8 "  " ++ row) rows)
                     ++ [nl])]
            else []))
  /\ _process_tables (BeautifulSoup table_ab)
     = Ok [NavigableString ([nl] ++ u8 "  A | B" ++ [nl])]
  /\ convert (Some table_ab) = Ok (u8 "A | B")
  /\ convert (Some (u8 "<table><tr> </tr><tr></tr></table>")) = Ok []
  /\ convert (Some (u8 "<h3> </h3>")) = Ok []
  /\ convert (Some (u8 "<p> </p>")) = Ok []
  /\ convert (Some (u8 "<ul><li> </li></ul><ol><li> </li></ol>")) = Ok [].
Proof.
  intros Hblank.
  assert (Hli : forall lis : list node,
            (forall d, In d lis -> strip (get_text d) = []) ->
            filter truthy (map (fun li => strip (get_text li)) lis) = []).
  { induction lis as [|x l IH]; intros H; [reflexivity|].
    simpl. rewrite (H x) by now left. simpl. apply IH.
    intros d Hd. apply H. now right. }
  repeat match goal with |- _ /\ _ => split end;
    try (vm_compute; reflexivity).
  - intros tag prefix s. unfold heading_body. simpl text_of.
    rewrite Hblank. discriminate.
  - apply for_each_decomposed.
    + apply named_refl.
    + unfold p_body. simpl text_of. now rewrite Hblank.
    + exists Decomposed. reflexivity.
  - unfold _process_lists. rewrite list_pass_on_list by reflexivity.
    rewrite ul_items_spec, Hli; [reflexivity|].
    intros d. now apply blank_found.
  - rewrite list_pass_on_list by reflexivity.
    rewrite ol_items_spec.
    replace (filter _ (enumerate1 (find_all (named (u8 "li")) cs)))
      with (@nil (nat * node)); [reflexivity|].
    symmetry. unfold enumerate1.
    generalize 1%nat.
    assert (H := blank_found (named (u8 "li")) cs).
    induction (find_all (named (u8 "li")) cs) as [|x l IH]; intros k;
      [reflexivity|].
    simpl. rewrite (H x Hblank) by now left. simpl. apply IH.
    intros d Hb Hd. apply H; [exact Hb|now right].
  - cbv zeta. rewrite <- table_rows_spec with (attrs := attrs).
    apply table_pass_on_table.
Qed.

Lemma C4_blank_elements_and_tables_witness :
  for_each (named (u8 "p")) p_body
    [Tag (u8 "p") [] [Tag (u8 "b") [] [NavigableString [sp; nl]]]]
  = Ok [].
Proof.
  destruct (C4_blank_elements_and_tables []
              [Tag (u8 "b") [] [NavigableString [sp; nl]]] [] eq_refl)
    as (_ & H & _).
  exact H.
Defined.

(* ================================================================= *)
(** ** Finalization *)

(** *** Substitution where nothing matches *)

Lemma sub_no_match (re : Re.regex) (repl s : str) :
  (forall p t, s = p ++ t -> Re.match_at re t = None) ->
  Re.sub re repl s = s.
Proof.
  unfold Re.sub. induction s as [|c r IH]; intros H; simpl.
  - now rewrite (H [] [] eq_refl).
  - rewrite (H [] (c :: r) eq_refl). f_equal. apply IH.
    intros p t ->. apply (H (c :: p) t). reflexivity.
Qed.

(** What a greedy star has taken when the match succeeds. *)
Lemma match_star (p : char -> bool) (re : Re.regex) (s rest : str) :
  Re.match_at (Re.Star p :: re) s = Some rest ->
  exists w s', s = w ++ s' /\ forallb p w = true
               /\ Re.match_at re s' = Some rest.
Proof.
  induction s as [|c s IH]; intros H.
  - exists [], []. auto.
  - cbn in H. destruct (p c) eqn:Pc.
    + change ((fix star (s : str) : option str :=
                 match s with
                 | [] => Re.match_at re s
                 | c :: r =>
                     if p c
                     then match star r with
                          | Some rest => Some rest
                          | None => Re.match_at re s
                          end
                     else Re.match_at re s
                 end) s)
        with (Re.match_at (Re.Star p :: re) s) in H.
      destruct (Re.match_at (Re.Star p :: re) s) as [r'|] eqn:E.
      * destruct (IH H) as (w & s' & -> & Hw & Hm).
        exists (c :: w), s'. simpl. rewrite Pc. auto.
      * exists [], (c :: s). auto.
    + exists [], (c :: s). auto.
Qed.

Lemma match_one (p : char -> bool) (re : Re.regex) (s rest : str) :
  Re.match_at (Re.One p :: re) s = Some rest ->
  exists c s', s = c :: s' /\ p c = true /\ Re.match_at re s' = Some rest.
Proof.
  destruct s as [|c s]; simpl; [discriminate|].
  destruct (p c) eqn:Pc; [eauto|discriminate].
Qed.

Lemma match_spaces (t rest : str) :
  Re.match_at spaces t = Some rest -> startswith [sp; sp] t = true.
Proof.
  unfold spaces. intros H.
  apply match_one in H as (c & s' & -> & E & H). apply N.eqb_eq in E as <-.
  apply match_one in H as (c & s'' & -> & E & H). apply N.eqb_eq in E as <-.
  reflexivity.
Qed.

Lemma match_blank_lines (t rest : str) :
  Re.match_at blank_lines t = Some rest ->
  exists w1 w2, t = nl :: w1 ++ nl :: w2 ++ nl :: rest
                /\ forallb isspace w1 = true /\ forallb isspace w2 = true.
Proof.
  unfold blank_lines. intros H.
  apply match_one in H as (c & s1 & -> & E & H). apply N.eqb_eq in E as <-.
  apply match_star in H as (w1 & s2 & -> & H1 & H).
  apply match_one in H as (c & s3 & -> & E & H). apply N.eqb_eq in E as <-.
  apply match_star in H as (w2 & s4 & -> & H2 & H).
  apply match_one in H as (c & s5 & -> & E & H). apply N.eqb_eq in E as <-.
  simpl in H. injection H as <-. now exists w1, w2.
Qed.

(** *** Substrings *)

Lemma contains_suffix (p a t : str) :
  startswith p t = true -> contains p (a ++ t) = true.
Proof.
  intros H. induction a as [|x a IH]; simpl.
  - destruct t; simpl in *; rewrite H; reflexivity.
  - rewrite IH. apply orb_true_r.
Qed.

(** *** Lines *)

Lemma split_on_nonempty (c : char) (s : str) : split_on c s <> [].
Proof.
  destruct s as [|x r]; simpl; [discriminate|].
  destruct (x =? c); [discriminate|].
  destruct (split_on c r); discriminate.
Qed.

Lemma split_on_app (c : char) (p t : str) :
  split_on c (p ++ c :: t) = split_on c p ++ split_on c t.
Proof.
  induction p as [|x p IH]; simpl.
  - now rewrite N.eqb_refl.
  - rewrite IH. destruct (x =? c); [reflexivity|].
    pose proof (split_on_nonempty c p).
    destruct (split_on c p); [contradiction|reflexivity].
Qed.

Lemma split_on_head (c x : char) (r : str) :
  x <> c -> exists l ls, split_on c (x :: r) = (x :: l) :: ls.
Proof.
  intros H. simpl. apply N.eqb_neq in H. rewrite H.
  destruct (split_on c r); eauto.
Qed.

Lemma split_on_last (c x : char) (a : str) :
  x <> c -> exists ls l, split_on c (a ++ [x]) = ls ++ [l ++ [x]].
Proof.
  intros H. induction a as [|y a (ls & l & IH)].
  - exists [], []. simpl. apply N.eqb_neq in H. now rewrite H.
  - simpl. rewrite IH. destruct (y =? c).
    + now exists ([] :: ls), l.
    + destruct ls as [|l0 ls]; simpl.
      * now exists [], (y :: l).
      * now exists ((y :: l0) :: ls), l.
Qed.

Lemma join_split_on (c : char) (s : str) : join [c] (split_on c s) = s.
Proof.
  induction s as [|x r IH]; [reflexivity|].
  simpl. pose proof (split_on_nonempty c r) as NE.
  destruct (x =? c) eqn:E.
  - apply N.eqb_eq in E. subst.
    destruct (split_on c r) as [|l ls]; [contradiction|].
    simpl in *. now rewrite IH.
  - destruct (split_on c r) as [|l ls]; [contradiction|].
    destruct ls; simpl in *; now rewrite <- IH.
Qed.

Lemma clean_line_in (s l : str) :
  clean_lines s = true -> In l (split_on nl s) -> strip l = l.
Proof.
  unfold clean_lines. rewrite forallb_forall. intros H Hin.
  apply eqb_eq. now apply H.
Qed.

(** No line begins with white space: after a newline comes a character
    that is no white space, or another newline. *)
Lemma clean_after_newline (p q : str) (c : char) :
  clean_lines (p ++ nl :: c :: q) = true -> isspace c = true -> c = nl.
Proof.
  intros H Hc. destruct (N.eq_dec c nl) as [E|E]; [exact E|exfalso].
  destruct (split_on_head nl c q E) as (l & ls & Hs).
  assert (Hl : strip (c :: l) = c :: l).
  { apply (clean_line_in _ _ H). rewrite split_on_app, Hs.
    apply in_or_app. right. now left. }
  apply strip_fixed_l, lstrip_head in Hl. congruence.
Qed.

Lemma clean_no_blank_lines (s p t : str) :
  clean_lines s = true -> no_triple_newline s = true ->
  s = p ++ t -> Re.match_at blank_lines t = None.
Proof.
  intros Hc Hn ->.
  destruct (Re.match_at blank_lines t) as [rest'|] eqn:M; [|reflexivity].
  exfalso.
  apply match_blank_lines in M as (w1 & w2 & -> & H1 & H2).
  unfold no_triple_newline in Hn. apply negb_true_iff in Hn.
  assert (K : forall a b, p ++ nl :: w1 ++ nl :: w2 ++ nl :: rest'
                          = a ++ nl :: nl :: nl :: b -> False).
  { intros a b E. rewrite E in Hn.
    rewrite contains_suffix in Hn; [discriminate|reflexivity]. }
  destruct w1 as [|c w1].
  - destruct w2 as [|c w2].
    + apply (K p rest'). reflexivity.
    + simpl in H2. apply andb_true_iff in H2 as [Hs _].
      assert (c = nl) as ->.
      { apply (clean_after_newline (p ++ [nl]) (w2 ++ nl :: rest')); [|exact Hs].
        rewrite <- app_assoc. exact Hc. }
      apply (K p (w2 ++ nl :: rest')). reflexivity.
  - simpl in H1. apply andb_true_iff in H1 as [Hs H1].
    assert (c = nl) as ->.
    { apply (clean_after_newline p (w1 ++ nl :: w2 ++ nl :: rest'));
        [exact Hc|exact Hs]. }
    destruct w1 as [|c w1].
    + apply (K p (w2 ++ nl :: rest')). reflexivity.
    + simpl in H1. apply andb_true_iff in H1 as [Hs' _].
      assert (c = nl) as ->.
      { apply (clean_after_newline (p ++ [nl])
                 (w1 ++ nl :: w2 ++ nl :: rest')); [|exact Hs'].
        rewrite <- app_assoc. exact Hc. }
      apply (K p (w1 ++ nl :: w2 ++ nl :: rest')). reflexivity.
Qed.

Lemma clean_lines_strip (s : str) :
  clean_lines s = true -> map strip (split_on nl s) = split_on nl s.
Proof.
  intros H. rewrite <- (map_id (split_on nl s)) at 2.
  apply map_ext_in. intros l. apply (clean_line_in s l H).
Qed.

Lemma clean_strip (s : str) :
  clean_lines s = true -> no_outer_newline s = true -> strip s = s.
Proof.
  intros Hc Ho. unfold no_outer_newline in Ho.
  apply andb_true_iff in Ho as [Hh Ht].
  apply negb_true_iff in Hh, Ht.
  assert (L : lstrip s = s).
  { destruct s as [|c r]; [reflexivity|].
    assert (E : c <> nl).
    { intros ->. simpl in Hh. discriminate. }
    destruct (split_on_head nl c r E) as (l & ls & Hs).
    assert (Hl : strip (c :: l) = c :: l).
    { apply (clean_line_in _ _ Hc). rewrite Hs. now left. }
    apply strip_fixed_l, lstrip_head in Hl. simpl. now rewrite Hl. }
  unfold strip. rewrite L. unfold rstrip.
  destruct (rev s) as [|c r] eqn:R; [now rewrite <- (rev_involutive s), R|].
  assert (Es : s = rev r ++ [c]).
  { rewrite <- (rev_involutive s), R. reflexivity. }
  assert (E : c <> nl).
  { intros ->. simpl in Ht. discriminate. }
  destruct (split_on_last nl c (rev r) E) as (ls & l & Hs).
  assert (Hl : strip (l ++ [c]) = l ++ [c]).
  { apply (clean_line_in _ _ Hc). rewrite Es, Hs.
    apply in_or_app. right. now left. }
  apply strip_fixed_r, rstrip_last in Hl.
  simpl. rewrite Hl. rewrite <- R. apply rev_involutive.
Qed.

(** C5, as stated, fails: a text that begins with a newline has no two
    spaces in a row, no three newlines in a row and no line with white
    space at either end, and finalization takes its first newline away. *)
Lemma C5_counterexample :
  no_double_space (nl :: u8 "a") = true
  /\ no_triple_newline (nl :: u8 "a") = true
  /\ clean_lines (nl :: u8 "a") = true
  /\ _finalize_formatting (nl :: u8 "a") = u8 "a"
  /\ _finalize_formatting (nl :: u8 "a") <> nl :: u8 "a".
Proof. repeat split; try (vm_compute; reflexivity). discriminate. Qed.

(** C5, amended: finalization returns unchanged every text that has no two
    spaces in a row, no three newlines in a row, no line that begins or ends
    with white space, and that neither begins nor ends with a newline. *)
Theorem C5_finalize_fixed_point (s : str) :
  no_double_space s = true ->
  no_triple_newline s = true ->
  clean_lines s = true ->
  no_outer_newline s = true ->
  _finalize_formatting s = s.
Proof.
  intros Hsp Hnl Hc Ho. unfold _finalize_formatting.
  rewrite (sub_no_match blank_lines).
  2: { intros p t E. now apply (clean_no_blank_lines s p t). }
  rewrite (sub_no_match spaces).
  2: { intros p t ->.
       destruct (Re.match_at spaces t) as [rest|] eqn:M; [|reflexivity].
       apply match_spaces in M. unfold no_double_space in Hsp.
       rewrite (contains_suffix _ p t M) in Hsp. discriminate. }
  rewrite clean_lines_strip by exact Hc.
  rewrite join_split_on. now apply clean_strip.
Qed.

Lemma C5_finalize_fixed_point_witness :
  _finalize_formatting (u8 "====== TITLE" ++ [nl; nl] ++ u8 "• a b")
  = u8 "====== TITLE" ++ [nl; nl] ++ u8 "• a b".
Proof.
  apply (C5_finalize_fixed_point
           (u8 "====== TITLE" ++ [nl; nl] ++ u8 "• a b"));
    vm_compute; reflexivity.
Defined.

(* ================================================================= *)
(** ** Finalization: what the result looks like *)

(** *** Substrings *)

Lemma startswith_prefix (p s : str) :
  startswith p s = true <-> exists b, s = p ++ b.
Proof.
  revert s. induction p as [|x p IH]; intros s; simpl.
  - split; eauto.
  - destruct s as [|y s]; [split; [discriminate|intros (b & E); discriminate]|].
    rewrite andb_true_iff, N.eqb_eq, IH. split.
    + intros (-> & b & ->). eauto.
    + intros (b & E). injection E as -> ->. eauto.
Qed.

Lemma contains_infix (p s : str) :
  contains p s = true <-> exists a b, s = a ++ p ++ b.
Proof.
  split.
  - induction s as [|c s IH]; simpl.
    + rewrite orb_false_r. intros H.
      apply startswith_prefix in H as (b & E). now exists [], b.
    + intros H. apply orb_true_iff in H as [H|H].
      * apply startswith_prefix in H as (b & E). now exists [], b.
      * destruct (IH H) as (a & b & ->). now exists (c :: a), b.
  - intros (a & b & ->). apply contains_suffix.
    apply startswith_prefix. eauto.
Qed.

Lemma contains_mono (p a s b : str) :
  contains p s = true -> contains p (a ++ s ++ b) = true.
Proof.
  intros H. apply contains_infix in H as (x & y & ->).
  apply contains_infix. exists (a ++ x), (y ++ b).
  now rewrite <- !app_assoc.
Qed.

(** *** Stripping *)

Lemma rstrip_prefix (s : str) :
  exists q, s = rstrip s ++ q /\ forallb isspace q = true.
Proof.
  unfold rstrip. destruct (lstrip_suffix (rev s)) as (p & E & Hp).
  exists (rev p). split.
  - rewrite <- rev_app_distr, <- E. now rewrite rev_involutive.
  - now rewrite forallb_rev.
Qed.

Lemma strip_infix (s : str) :
  exists p q, s = p ++ strip s ++ q
              /\ forallb isspace p = true /\ forallb isspace q = true.
Proof.
  destruct (lstrip_suffix s) as (p & E & Hp).
  destruct (rstrip_prefix (lstrip s)) as (q & E' & Hq).
  exists p, q. unfold strip. now rewrite <- E', <- E.
Qed.

Lemma rstrip_snoc (s : str) (c : char) :
  rstrip (s ++ [c]) = if isspace c then rstrip s else s ++ [c].
Proof.
  unfold rstrip. rewrite rev_app_distr. simpl.
  destruct (isspace c); [reflexivity|].
  simpl. now rewrite rev_involutive.
Qed.

Lemma lstrip_idem (s : str) : lstrip (lstrip s) = lstrip s.
Proof.
  induction s as [|c s IH]; simpl; [reflexivity|].
  destruct (isspace c) eqn:E; [exact IH|]. simpl. now rewrite E.
Qed.

Lemma rstrip_idem (s : str) : rstrip (rstrip s) = rstrip s.
Proof.
  unfold rstrip. now rewrite rev_involutive, lstrip_idem.
Qed.

(** Taking white space from the end leaves a text that begins with none
    as one that begins with none. *)
Lemma lstrip_rstrip (s : str) : lstrip s = s -> lstrip (rstrip s) = rstrip s.
Proof.
  induction s as [|c s IH] using rev_ind; [reflexivity|].
  rewrite rstrip_snoc. destruct (isspace c) eqn:Hc; [|easy].
  intros H. destruct s as [|d s]; [reflexivity|].
  apply IH. simpl in H |- *. destruct (isspace d); [|reflexivity].
  exfalso. pose proof (lstrip_length (s ++ [c])) as L.
  rewrite H in L. simpl in L. lia.
Qed.

Lemma strip_idem (s : str) : strip (strip s) = strip s.
Proof.
  unfold strip.
  rewrite (lstrip_rstrip (lstrip s)) by apply lstrip_idem.
  apply rstrip_idem.
Qed.

(** *** The matcher *)

Lemma match_star_cons (p : char -> bool) (re : Re.regex) (c : char) (r : str) :
  Re.match_at (Re.Star p :: re) (c :: r)
  = if p c then
      match Re.match_at (Re.Star p :: re) r with
      | Some rest => Some rest
      | None => Re.match_at re (c :: r)
      end
    else Re.match_at re (c :: r).
Proof. reflexivity. Qed.

Lemma match_star_nil (p : char -> bool) (re : Re.regex) :
  Re.match_at (Re.Star p :: re) [] = Re.match_at re [].
Proof. reflexivity. Qed.

(** The matcher finds a match whenever there is one. *)
Lemma match_star_complete (p : char -> bool) (re : Re.regex) (w s : str) :
  forallb p w = true -> Re.match_at re s <> None ->
  Re.match_at (Re.Star p :: re) (w ++ s) <> None.
Proof.
  intros Hw Hs. induction w as [|c w IH]; simpl app.
  - destruct s as [|c r]; [now rewrite match_star_nil|].
    rewrite match_star_cons. destruct (p c); [|exact Hs].
    now destruct (Re.match_at (Re.Star p :: re) r).
  - simpl in Hw. apply andb_true_iff in Hw as [Hc Hw].
    rewrite match_star_cons, Hc.
    destruct (Re.match_at (Re.Star p :: re) (w ++ s)); [discriminate|].
    now elim (IH Hw).
Qed.

(** A star at the end of the pattern takes all it can. *)
Lemma match_last_star (p : char -> bool) (s rest : str) :
  Re.match_at [Re.Star p] s = Some rest ->
  exists w, s = w ++ rest /\ forallb p w = true
            /\ match rest with c :: _ => p c = false | [] => True end.
Proof.
  revert rest. induction s as [|c s IH]; intros rest H.
  - injection H as <-. now exists [].
  - rewrite match_star_cons in H. destruct (p c) eqn:Pc.
    + destruct (Re.match_at [Re.Star p] s) as [r'|] eqn:E.
      * injection H as <-. destruct (IH r' eq_refl) as (w & -> & Hw & Hr).
        exists (c :: w). simpl. now rewrite Pc, Hw.
      * exfalso. revert E. change s with ([] ++ s).
        now apply match_star_complete.
    + injection H as <-. exists []. simpl. now rewrite Pc.
Qed.

(** *** Substitution, match by match *)

Lemma sub_from_skip (re : Re.regex) (repl a b : str) :
  Re.sub_from re repl (List.length a) (a ++ b) = Re.sub_from re repl 0 b.
Proof. induction a as [|c a IH]; simpl; [reflexivity|exact IH]. Qed.

Lemma sub_match (re : Re.regex) (repl : str) (c : char) (seg rest : str) :
  Re.match_at re (c :: seg ++ rest) = Some rest ->
  Re.sub re repl (c :: seg ++ rest) = repl ++ Re.sub re repl rest.
Proof.
  intros H. unfold Re.sub. cbn [Re.sub_from]. rewrite H.
  replace (List.length (c :: seg ++ rest) - List.length rest)%nat
    with (S (List.length seg))
    by (cbn [List.length]; rewrite length_app; lia).
  now rewrite sub_from_skip.
Qed.

Lemma sub_copy (re : Re.regex) (repl : str) (c : char) (r : str) :
  Re.match_at re (c :: r) = None ->
  Re.sub re repl (c :: r) = c :: Re.sub re repl r.
Proof. intros H. unfold Re.sub. cbn [Re.sub_from]. now rewrite H. Qed.

Lemma sub_nil (re : Re.regex) (repl : str) :
  Re.match_at re [] = None -> Re.sub re repl [] = [].
Proof. intros H. unfold Re.sub. cbn. now rewrite H. Qed.

(** Induction on a text by the steps of [re.sub]: a character is copied,
    or a match is passed over. *)
Lemma sub_ind (re : Re.regex) (P : str -> Prop) :
  P [] ->
  (forall c r, Re.match_at re (c :: r) = None -> P r -> P (c :: r)) ->
  (forall c seg rest,
      Re.match_at re (c :: seg ++ rest) = Some rest ->
      P rest -> P (c :: seg ++ rest)) ->
  (forall s rest, Re.match_at re s = Some rest ->
                  exists seg, s = seg ++ rest) ->
  (forall rest, Re.match_at re rest <> Some rest) ->
  forall s, P s.
Proof.
  intros Hnil Hcopy Hmatch Hseg Hprog s.
  induction s as [s IH] using (induction_ltof1 _ (@List.length char)).
  unfold ltof in IH.
  destruct s as [|c r]; [exact Hnil|].
  destruct (Re.match_at re (c :: r)) as [rest|] eqn:M.
  - destruct (Hseg _ _ M) as (seg & E).
    destruct seg as [|c' seg].
    + simpl in E. subst rest. now elim (Hprog _ M).
    + injection E as <- ->. apply Hmatch; [exact M|].
      apply IH. simpl. rewrite length_app. lia.
  - apply Hcopy; [exact M|]. apply IH. simpl. lia.
Qed.

(** *** Runs of spaces *)

Lemma match_spaces_inv (t rest : str) :
  Re.match_at spaces t = Some rest ->
  exists w, t = sp :: (sp :: w) ++ rest
            /\ forallb (N.eqb sp) w = true
            /\ startswith [sp] rest = false.
Proof.
  unfold spaces. intros H.
  apply match_one in H as (c & s' & -> & E & H). apply N.eqb_eq in E as <-.
  apply match_one in H as (c & s'' & -> & E & H). apply N.eqb_eq in E as <-.
  apply match_last_star in H as (w & -> & Hw & Hr).
  exists w. repeat split; [exact Hw|].
  destruct rest as [|c r]; [reflexivity|]. cbn [startswith]. now rewrite Hr.
Qed.

Lemma match_spaces_complete (r : str) :
  Re.match_at spaces (sp :: sp :: r) <> None.
Proof.
  change (Re.match_at spaces (sp :: sp :: r))
    with (Re.match_at [Re.Star (N.eqb sp)] ([] ++ r)).
  now apply match_star_complete.
Qed.

Lemma spaces_steps (P : str -> Prop) :
  P [] ->
  (forall c r, Re.match_at spaces (c :: r) = None -> P r -> P (c :: r)) ->
  (forall w rest,
      forallb (N.eqb sp) w = true -> startswith [sp] rest = false ->
      Re.match_at spaces (sp :: (sp :: w) ++ rest) = Some rest ->
      P rest -> P (sp :: (sp :: w) ++ rest)) ->
  forall s, P s.
Proof.
  intros Hnil Hcopy Hmatch. apply (sub_ind spaces); auto.
  - intros c seg rest M IH.
    destruct (match_spaces_inv _ _ M) as (w & E & Hw & Hr).
    injection E as -> E. change (sp :: w ++ rest) with ((sp :: w) ++ rest) in E.
    apply app_inv_tail in E. subst seg. now apply Hmatch.
  - intros s rest M. destruct (match_spaces_inv _ _ M) as (w & -> & _).
    now exists (sp :: sp :: w).
  - intros rest M. destruct (match_spaces_inv _ _ M) as (w & E & _).
    apply (f_equal (@List.length char)) in E.
    simpl in E. rewrite length_app in E. lia.
Qed.

Lemma sub_spaces_match (w rest : str) :
  Re.match_at spaces (sp :: (sp :: w) ++ rest) = Some rest ->
  Re.sub spaces [sp] (sp :: (sp :: w) ++ rest) = sp :: Re.sub spaces [sp] rest.
Proof. intros M. now rewrite (sub_match spaces [sp] sp (sp :: w) rest M). Qed.

(** After the substitution no two spaces are left side by side. *)
Lemma sub_spaces_single (s : str) :
  contains [sp; sp] (Re.sub spaces [sp] s) = false
  /\ (startswith [sp] (Re.sub spaces [sp] s) = true -> startswith [sp] s = true).
Proof.
  induction s as [|c r M [IH1 IH2]|w rest Hw Hr M [IH1 IH2]] using spaces_steps.
  - now rewrite sub_nil.
  - rewrite (sub_copy _ _ _ _ M). split; [|easy].
    cbn [contains]. rewrite IH1, orb_false_r.
    cbn [startswith]. destruct (sp =? c) eqn:Ec; [|reflexivity].
    apply N.eqb_eq in Ec. subst c.
    destruct (Re.sub spaces [sp] r) as [|d r'] eqn:Es; [reflexivity|].
    destruct (sp =? d) eqn:Ed; [|reflexivity].
    exfalso. assert (Hs : startswith [sp] r = true).
    { apply IH2. cbn [startswith]. now rewrite Ed. }
    destruct r as [|e r'']; [discriminate|].
    cbn [startswith] in Hs. rewrite andb_true_r in Hs.
    apply N.eqb_eq in Hs. subst e.
    now elim (match_spaces_complete r'').
  - rewrite (sub_spaces_match _ _ M). split; [|reflexivity].
    cbn [contains]. rewrite IH1, orb_false_r.
    cbn [startswith]. rewrite N.eqb_refl. cbn [andb].
    destruct (Re.sub spaces [sp] rest) as [|d r'] eqn:Es; [reflexivity|].
    destruct (sp =? d) eqn:Ed; [|reflexivity].
    rewrite IH2 in Hr; [discriminate|]. cbn [startswith]. now rewrite Ed.
Qed.

(** Two spaces side by side lie in one line. *)
Lemma double_space_line (l r : str) :
  contains [sp; sp] (l ++ nl :: r)
  = contains [sp; sp] l || contains [sp; sp] r.
Proof.
  induction l as [|c l IH].
  - simpl. now destruct r.
  - change ((c :: l) ++ nl :: r) with (c :: (l ++ nl :: r)).
    cbn [contains]. rewrite IH, orb_assoc. f_equal. f_equal.
    destruct l as [|d l]; simpl.
    + now rewrite andb_false_r.
    + reflexivity.
Qed.

Lemma double_space_join (L : list str) :
  contains [sp; sp] (join [nl] L) = existsb (contains [sp; sp]) L.
Proof.
  induction L as [|l L IH]; [reflexivity|].
  destruct L as [|l' L].
  - simpl. now rewrite orb_false_r.
  - change (join [nl] (l :: l' :: L)) with (l ++ nl :: join [nl] (l' :: L)).
    rewrite double_space_line, IH. reflexivity.
Qed.

Lemma strip_contains (p s : str) :
  contains p (strip s) = true -> contains p s = true.
Proof.
  intros H. destruct (strip_infix s) as (a & b & E & _).
  rewrite E. now apply contains_mono.
Qed.

Lemma finalize_no_double_space (s : str) :
  no_double_space (_finalize_formatting s) = true.
Proof.
  unfold no_double_space, _finalize_formatting. apply negb_true_iff.
  set (s1 := Re.sub blank_lines [nl; nl] s).
  destruct (contains [sp; sp] (strip _)) eqn:E; [|reflexivity].
  apply strip_contains in E. rewrite double_space_join in E.
  apply existsb_exists in E as (l & Hin & Hl).
  apply in_map_iff in Hin as (l0 & <- & Hin).
  apply strip_contains in Hl.
  assert (K : existsb (contains [sp; sp]) (split_on nl (Re.sub spaces [sp] s1))
              = true).
  { apply existsb_exists. eauto. }
  rewrite <- double_space_join, join_split_on in K.
  now rewrite (proj1 (sub_spaces_single s1)) in K.
Qed.

(** *** Runs of blank lines *)

Lemma leading_newlines_app (w s : str) :
  forallb isspace w = true ->
  (leading_newlines s <= leading_newlines (w ++ s))%nat.
Proof.
  induction w as [|c w IH]; simpl; [lia|].
  intros H. apply andb_true_iff in H as [Hc Hw]. rewrite Hc.
  specialize (IH Hw). lia.
Qed.

Lemma leading_newlines_first (s : str) (k : nat) :
  leading_newlines s = S k ->
  exists w r, s = w ++ nl :: r /\ forallb isspace w = true
              /\ leading_newlines r = k.
Proof.
  induction s as [|c s IH]; simpl; [discriminate|].
  destruct (isspace c) eqn:Hc; [|discriminate].
  destruct (c =? nl) eqn:E.
  - apply N.eqb_eq in E. subst c. intros H. injection H as H.
    now exists [], s.
  - intros H. destruct (IH H) as (w & r & -> & Hw & Hr).
    exists (c :: w), r. simpl. now rewrite Hc.
Qed.

(** The last star of the pattern leaves no newline in the white space that
    follows the match. *)
Lemma match_to_last_newline (s rest : str) :
  Re.match_at [Re.Star isspace; Re.One (N.eqb nl)] s = Some rest ->
  leading_newlines rest = O.
Proof.
  revert rest. induction s as [|c s IH]; intros rest H.
  - discriminate.
  - rewrite match_star_cons in H.
    assert (K : Re.match_at [Re.One (N.eqb nl)] (c :: s) = Some rest ->
                Re.match_at [Re.Star isspace; Re.One (N.eqb nl)] s = None ->
                leading_newlines rest = O).
    { intros H1 H2.
      apply match_one in H1 as (c' & s' & E & _ & H1).
      injection E as <- <-. injection H1 as <-.
      destruct (leading_newlines s) as [|k] eqn:E; [reflexivity|exfalso].
      apply leading_newlines_first in E as (w & r & -> & Hw & _).
      revert H2. now apply match_star_complete. }
    destruct (isspace c) eqn:Hc.
    + destruct (Re.match_at [Re.Star isspace; Re.One (N.eqb nl)] s)
        as [r'|] eqn:E.
      * injection H as <-. now apply IH.
      * now apply K.
    + apply match_one in H as (c' & s' & E & Ec & _).
      injection E as <- <-. apply N.eqb_eq in Ec. subst c. discriminate.
Qed.

Lemma match_blank_inv (t rest : str) :
  Re.match_at blank_lines t = Some rest ->
  exists seg, t = nl :: seg ++ rest
              /\ forallb isspace seg = true
              /\ leading_newlines rest = O.
Proof.
  unfold blank_lines. intros H.
  apply match_one in H as (c & s1 & -> & E & H). apply N.eqb_eq in E as <-.
  apply match_star in H as (w1 & s2 & -> & H1 & H).
  apply match_one in H as (c & s3 & -> & E & H). apply N.eqb_eq in E as <-.
  pose proof (match_to_last_newline _ _ H) as Hmax.
  apply match_star in H as (w2 & s4 & -> & H2 & H).
  apply match_one in H as (c & s5 & -> & E & H). apply N.eqb_eq in E as <-.
  simpl in H. injection H as <-.
  exists (w1 ++ nl :: w2 ++ [nl]). repeat split.
  - f_equal. rewrite <- app_assoc. cbn [app]. f_equal. f_equal.
    now rewrite <- app_assoc.
  - rewrite forallb_app, H1. cbn [forallb andb].
    rewrite forallb_app, H2. reflexivity.
  - exact Hmax.
Qed.

Lemma match_blank_complete (r : str) :
  (2 <= leading_newlines r)%nat ->
  Re.match_at blank_lines (nl :: r) <> None.
Proof.
  intros H.
  destruct (leading_newlines r) as [|k] eqn:E1; [lia|].
  apply leading_newlines_first in E1 as (w1 & r1 & -> & H1 & E2).
  destruct k as [|k]; [lia|].
  apply leading_newlines_first in E2 as (w2 & r2 & -> & H2 & _).
  change (Re.match_at blank_lines (nl :: w1 ++ nl :: w2 ++ nl :: r2))
    with (Re.match_at [Re.Star isspace; Re.One (N.eqb nl);
                       Re.Star isspace; Re.One (N.eqb nl)]
            (w1 ++ nl :: w2 ++ nl :: r2)).
  apply match_star_complete; [exact H1|].
  change (Re.match_at [Re.One (N.eqb nl); Re.Star isspace; Re.One (N.eqb nl)]
            (nl :: w2 ++ nl :: r2))
    with (Re.match_at [Re.Star isspace; Re.One (N.eqb nl)] (w2 ++ nl :: r2)).
  apply match_star_complete; [exact H2|]. discriminate.
Qed.

Lemma blank_steps (P : str -> Prop) :
  P [] ->
  (forall c r, Re.match_at blank_lines (c :: r) = None -> P r -> P (c :: r)) ->
  (forall seg rest,
      forallb isspace seg = true -> leading_newlines rest = O ->
      Re.match_at blank_lines (nl :: seg ++ rest) = Some rest ->
      P rest -> P (nl :: seg ++ rest)) ->
  forall s, P s.
Proof.
  intros Hnil Hcopy Hmatch. apply (sub_ind blank_lines); auto.
  - intros c seg rest M IH.
    destruct (match_blank_inv _ _ M) as (seg' & E & Hw & Hr).
    injection E as -> E. apply app_inv_tail in E. subst seg'.
    now apply Hmatch.
  - intros s rest M. destruct (match_blank_inv _ _ M) as (seg & -> & _).
    now exists (nl :: seg).
  - intros rest M. destruct (match_blank_inv _ _ M) as (seg & E & _).
    apply (f_equal (@List.length char)) in E.
    simpl in E. rewrite length_app in E. lia.
Qed.

(** After the substitution no newline is followed by two more with only
    white space in between. *)
Lemma sub_blank_few_newlines (s : str) :
  few_newlines (Re.sub blank_lines [nl; nl] s)
  /\ (leading_newlines (Re.sub blank_lines [nl; nl] s)
      <= leading_newlines s)%nat.
Proof.
  unfold few_newlines.
  induction s as [|c r M [IH1 IH2]|seg rest Hw Hr M [IH1 IH2]]
    using blank_steps.
  - rewrite sub_nil by reflexivity. split; [|reflexivity].
    intros [|] ? E; discriminate.
  - rewrite (sub_copy _ _ _ _ M). split.
    + intros [|d p] r' E; cbn [app] in E; inversion E; subst.
      * etransitivity; [exact IH2|].
        destruct (le_lt_dec (leading_newlines r) 1) as [L|L]; [exact L|].
        now elim (match_blank_complete r L).
      * now apply (IH1 p r').
    + simpl. destruct (isspace c); lia.
  - rewrite (sub_match blank_lines [nl; nl] nl seg rest M).
    assert (Z : leading_newlines (Re.sub blank_lines [nl; nl] rest) = O) by lia.
    split.
    + intros [|d [|e p]] r' E; cbn [app] in E; inversion E; subst.
      * cbn [leading_newlines].
        replace (isspace nl) with true by reflexivity.
        rewrite N.eqb_refl, Z. lia.
      * lia.
      * now apply (IH1 p r').
    + cbn [app]. cbn [leading_newlines]. replace (isspace nl) with true by reflexivity.
      rewrite N.eqb_refl, Z.
      pose proof (match_blank_inv _ _ M) as (seg' & E & Hs & _).
      clear - M Hw.
      (* the matched text holds three newlines *)
      unfold blank_lines in M.
      apply match_one in M as (c & s1 & E & _ & M). injection E as <- <-.
      apply match_star in M as (w1 & s2 & E1 & H1 & M).
      apply match_one in M as (c & s3 & -> & Ec & M). apply N.eqb_eq in Ec as <-.
      rewrite E1.
      pose proof (leading_newlines_app w1 (nl :: s3) H1) as L.
      cbn [leading_newlines] in L.
      replace (isspace nl) with true in L by reflexivity.
      rewrite N.eqb_refl in L. lia.
Qed.

(** *** Taking white space out *)

Lemma trimmed_refl (s : str) : trimmed_of s s.
Proof. induction s; constructor; assumption. Qed.

Lemma trimmed_trans (a b c : str) :
  trimmed_of a b -> trimmed_of b c -> trimmed_of a c.
Proof.
  intros H. revert c. induction H as [|x s t H IH|x s t Hx H IH]; intros c Hc.
  - exact Hc.
  - inversion Hc; subst.
    + constructor. now apply IH.
    + apply trimmed_drop; [assumption|]. now apply IH.
  - apply trimmed_drop; [assumption|]. now apply IH.
Qed.

Lemma trimmed_app (a a' b b' : str) :
  trimmed_of a a' -> trimmed_of b b' -> trimmed_of (a ++ b) (a' ++ b').
Proof.
  intros Ha Hb. induction Ha; simpl; try constructor; assumption.
Qed.

Lemma trimmed_all (w : str) : forallb isspace w = true -> trimmed_of w [].
Proof.
  induction w as [|c w IH]; simpl; [constructor|].
  intros H. apply andb_true_iff in H as [Hc Hw]. now constructor; auto.
Qed.

Lemma trimmed_strip (s : str) : trimmed_of s (strip s).
Proof.
  assert (K : forall p m q : str,
             forallb isspace p = true -> forallb isspace q = true ->
             trimmed_of (p ++ m ++ q) m).
  { intros p m q Hp Hq.
    replace m with ([] ++ m ++ []) at 2 by (simpl; apply app_nil_r).
    apply trimmed_app; [now apply trimmed_all|].
    apply trimmed_app; [apply trimmed_refl|now apply trimmed_all]. }
  destruct (strip_infix s) as (p & q & E & Hp & Hq).
  rewrite E at 1. now apply K.
Qed.

Lemma trimmed_lines (L : list str) :
  trimmed_of (join [nl] L) (join [nl] (map strip L)).
Proof.
  induction L as [|l L IH]; [constructor|].
  destruct L as [|l' L]; [apply trimmed_strip|].
  change (join [nl] (l :: l' :: L)) with (l ++ [nl] ++ join [nl] (l' :: L)).
  change (join [nl] (map strip (l :: l' :: L)))
    with (strip l ++ [nl] ++ join [nl] (map strip (l' :: L))).
  apply trimmed_app; [apply trimmed_strip|].
  apply trimmed_app; [apply trimmed_refl|exact IH].
Qed.

Lemma trimmed_spaces (s : str) : trimmed_of s (Re.sub spaces [sp] s).
Proof.
  induction s as [|c r M IH|w rest Hw Hr M IH] using spaces_steps.
  - rewrite sub_nil by reflexivity. constructor.
  - rewrite (sub_copy _ _ _ _ M). now constructor.
  - rewrite (sub_spaces_match _ _ M). constructor.
    change (Re.sub spaces [sp] rest) with ([] ++ Re.sub spaces [sp] rest).
    apply trimmed_app; [|exact IH].
    apply trimmed_all. simpl. apply forallb_forall.
    intros x Hx. rewrite forallb_forall in Hw.
    apply Hw in Hx. apply N.eqb_eq in Hx. now subst x.
Qed.

(** The text after a newline of the result is what is left of the text
    after a newline of the source. *)
Lemma trimmed_newline (s p r : str) :
  trimmed_of s (p ++ nl :: r) ->
  exists p0 r0, s = p0 ++ nl :: r0 /\ trimmed_of r0 r.
Proof.
  intros H. remember (p ++ nl :: r) as t eqn:E. revert p E.
  induction H as [|x s t H IH|x s t Hx H IH]; intros p E.
  - destruct p; discriminate.
  - destruct p as [|y p]; simpl in E; injection E as -> ->.
    + now exists [], s.
    + destruct (IH p eq_refl) as (p0 & r0 & -> & Hr).
      now exists (y :: p0), r0.
  - destruct (IH p E) as (p0 & r0 & -> & Hr).
    now exists (x :: p0), r0.
Qed.

Lemma trimmed_leading_newlines (s t : str) :
  trimmed_of s t -> (leading_newlines t <= leading_newlines s)%nat.
Proof.
  induction 1 as [|x s t H IH|x s t Hx H IH]; simpl.
  - lia.
  - destruct (isspace x); lia.
  - rewrite Hx. lia.
Qed.

Lemma trimmed_few_newlines (s t : str) :
  trimmed_of s t -> few_newlines s -> few_newlines t.
Proof.
  intros H Hs p r E. subst t.
  apply trimmed_newline in H as (p0 & r0 & -> & Hr).
  apply trimmed_leading_newlines in Hr.
  specialize (Hs p0 r0 eq_refl). lia.
Qed.

Lemma few_newlines_no_triple (s : str) :
  few_newlines s -> no_triple_newline s = true.
Proof.
  intros H. unfold no_triple_newline. apply negb_true_iff.
  destruct (contains [nl; nl; nl] s) eqn:E; [exfalso|reflexivity].
  apply contains_infix in E as (a & b & ->).
  specialize (H a (nl :: nl :: b) eq_refl). simpl in H. lia.
Qed.

(** Finalization only takes white space out of the text. *)
Lemma finalize_after_blank (s : str) :
  trimmed_of (Re.sub blank_lines [nl; nl] s) (_finalize_formatting s).
Proof.
  unfold _finalize_formatting.
  set (s1 := Re.sub blank_lines [nl; nl] s).
  eapply trimmed_trans; [apply (trimmed_spaces s1)|].
  eapply trimmed_trans; [|apply trimmed_strip].
  rewrite <- (join_split_on nl (Re.sub spaces [sp] s1)) at 1.
  apply trimmed_lines.
Qed.

Lemma finalize_no_triple_newline (s : str) :
  no_triple_newline (_finalize_formatting s) = true.
Proof.
  apply few_newlines_no_triple.
  apply (trimmed_few_newlines _ _ (finalize_after_blank s)).
  apply sub_blank_few_newlines.
Qed.

(** *** The lines of the result *)

Lemma split_on_none (c : char) (l : str) :
  ~ In c l -> split_on c l = [l].
Proof.
  induction l as [|x l IH]; [reflexivity|].
  intros H. simpl. destruct (x =? c) eqn:E.
  - apply N.eqb_eq in E. subst. elim H. now left.
  - rewrite IH; [reflexivity|]. intros Hin. apply H. now right.
Qed.

Lemma split_on_no_sep (c : char) (s l : str) :
  In l (split_on c s) -> ~ In c l.
Proof.
  revert l. induction s as [|x s IH]; intros l; simpl.
  - intros [<-|[]]. easy.
  - destruct (x =? c) eqn:E.
    + intros [<-|H]; [easy|now apply IH].
    + pose proof (split_on_nonempty c s) as NE.
      destruct (split_on c s) as [|l0 ls]; [contradiction|].
      intros [<-|H].
      * intros [->|Hin]; [now rewrite N.eqb_refl in E|].
        apply (IH l0); [now left|exact Hin].
      * apply IH. now right.
Qed.

Lemma split_on_join (c : char) (L : list str) :
  L <> [] -> Forall (fun l => ~ In c l) L -> split_on c (join [c] L) = L.
Proof.
  intros NE H. induction H as [|l L Hl HL IH]; [contradiction|].
  destruct L as [|l' L]; [now apply split_on_none|].
  change (join [c] (l :: l' :: L)) with (l ++ c :: join [c] (l' :: L)).
  rewrite split_on_app, IH by discriminate.
  now rewrite split_on_none.
Qed.

Lemma strip_in (c : char) (l : str) : In c (strip l) -> In c l.
Proof.
  intros H. destruct (strip_infix l) as (p & q & E & _). rewrite E.
  apply in_or_app. right. apply in_or_app. now left.
Qed.

Lemma stripped_lines_clean (s : str) :
  clean_lines (join [nl] (map strip (split_on nl s))) = true.
Proof.
  unfold clean_lines. rewrite split_on_join.
  - apply forallb_forall. intros l Hin.
    apply in_map_iff in Hin as (l0 & <- & _).
    apply eqb_eq, strip_idem.
  - pose proof (split_on_nonempty nl s). now destruct (split_on nl s).
  - apply Forall_forall. intros l Hin.
    apply in_map_iff in Hin as (l0 & <- & Hin).
    intros H. apply strip_in in H. revert H. now apply (split_on_no_sep nl s).
Qed.

Lemma clean_lines_cons (c : char) (r : str) :
  clean_lines (c :: r) = true -> isspace c = true ->
  c = nl /\ clean_lines r = true.
Proof.
  intros H Hc. destruct (N.eq_dec c nl) as [->|E].
  - split; [reflexivity|]. unfold clean_lines in *. simpl in H.
    exact H.
  - exfalso. destruct (split_on_head nl c r E) as (l & ls & Hs).
    assert (Hl : strip (c :: l) = c :: l).
    { apply (clean_line_in _ _ H). rewrite Hs. now left. }
    apply strip_fixed_l, lstrip_head in Hl. congruence.
Qed.

Lemma clean_lines_snoc (c : char) (r : str) :
  clean_lines (r ++ [c]) = true -> isspace c = true ->
  c = nl /\ clean_lines r = true.
Proof.
  intros H Hc. destruct (N.eq_dec c nl) as [->|E].
  - split; [reflexivity|]. unfold clean_lines in *.
    rewrite split_on_app, forallb_app in H.
    now apply andb_true_iff in H.
  - exfalso. destruct (split_on_last nl c r E) as (ls & l & Hs).
    assert (Hl : strip (l ++ [c]) = l ++ [c]).
    { apply (clean_line_in _ _ H). rewrite Hs.
      apply in_or_app. right. now left. }
    apply strip_fixed_r, rstrip_last in Hl. congruence.
Qed.

Lemma clean_lstrip (s : str) :
  clean_lines s = true -> clean_lines (lstrip s) = true.
Proof.
  induction s as [|c r IH]; [easy|].
  intros H. simpl. destruct (isspace c) eqn:Hc; [|exact H].
  apply IH. now apply (clean_lines_cons c r).
Qed.

Lemma clean_rstrip (s : str) :
  clean_lines s = true -> clean_lines (rstrip s) = true.
Proof.
  induction s as [|c r IH] using rev_ind; [easy|].
  intros H. rewrite rstrip_snoc. destruct (isspace c) eqn:Hc; [|exact H].
  apply IH. now apply (clean_lines_snoc c r).
Qed.

Lemma finalize_clean_lines (s : str) :
  clean_lines (_finalize_formatting s) = true.
Proof.
  unfold _finalize_formatting, strip.
  apply clean_rstrip, clean_lstrip, stripped_lines_clean.
Qed.

Lemma stripped_no_outer_newline (s : str) :
  strip s = s -> no_outer_newline s = true.
Proof.
  intros H. unfold no_outer_newline. apply andb_true_iff. split.
  - apply strip_fixed_l in H. destruct s as [|c r]; [reflexivity|].
    apply lstrip_head in H. cbn [startswith]. rewrite andb_true_r.
    destruct (nl =? c) eqn:E; [|reflexivity].
    apply N.eqb_eq in E. subst c. discriminate.
  - apply strip_fixed_r in H. unfold rstrip in H.
    apply (f_equal (@rev char)) in H. rewrite rev_involutive in H.
    destruct (rev s) as [|c r]; [reflexivity|].
    apply lstrip_head in H. cbn [startswith]. rewrite andb_true_r.
    destruct (nl =? c) eqn:E; [|reflexivity].
    apply N.eqb_eq in E. subst c. discriminate.
Qed.

Lemma finalize_stripped (s : str) :
  strip (_finalize_formatting s) = _finalize_formatting s.
Proof. unfold _finalize_formatting. apply strip_idem. Qed.

(** A normalized text is a fixed point of finalization. *)
Lemma finalize_fixed (s : str) :
  normalized s = true -> _finalize_formatting s = s.
Proof.
  unfold normalized. intros H.
  apply andb_true_iff in H as [H Ho].
  apply andb_true_iff in H as [H Hc].
  apply andb_true_iff in H as [Hsp Hnl].
  unfold _finalize_formatting.
  rewrite (sub_no_match blank_lines).
  2: { intros p t E. now apply (clean_no_blank_lines s p t). }
  rewrite (sub_no_match spaces).
  2: { intros p t ->.
       destruct (Re.match_at spaces t) as [rest|] eqn:M; [|reflexivity].
       apply match_spaces in M. unfold no_double_space in Hsp.
       rewrite (contains_suffix _ p t M) in Hsp. discriminate. }
  rewrite clean_lines_strip by exact Hc.
  rewrite join_split_on. now apply clean_strip.
Qed.

Lemma trimmed_blank (s : str) : trimmed_of s (Re.sub blank_lines [nl; nl] s).
Proof.
  induction s as [|c r M IH|seg rest Hw Hr M IH] using blank_steps.
  - rewrite sub_nil by reflexivity. constructor.
  - rewrite (sub_copy _ _ _ _ M). now constructor.
  - rewrite (sub_match blank_lines [nl; nl] nl seg rest M).
    cbn [app]. constructor.
    (* the matched text ends with a newline *)
    pose proof (match_blank_lines _ _ M) as (w1 & w2 & E & H1 & H2).
    injection E as E.
    assert (Es : seg = (w1 ++ nl :: w2) ++ [nl]).
    { apply (app_inv_tail rest). now rewrite E, <- !app_assoc. }
    rewrite Es, <- app_assoc. cbn [app].
    change (nl :: Re.sub blank_lines [nl; nl] rest)
      with ([] ++ nl :: Re.sub blank_lines [nl; nl] rest).
    apply trimmed_app; [|now constructor].
    apply trimmed_all. rewrite forallb_app, H1. cbn [forallb andb].
    exact H2.
Qed.

Lemma trimmed_finalize (s : str) : trimmed_of s (_finalize_formatting s).
Proof.
  eapply trimmed_trans; [apply trimmed_blank|apply finalize_after_blank].
Qed.

Lemma trimmed_same_ink (s t : str) :
  trimmed_of s t ->
  filter (fun c => negb (isspace c)) t = filter (fun c => negb (isspace c)) s.
Proof.
  induction 1 as [|x s t H IH|x s t Hx H IH]; simpl.
  - reflexivity.
  - now rewrite IH.
  - now rewrite Hx.
Qed.

Lemma finalize_normalized (s : str) :
  normalized (_finalize_formatting s) = true.
Proof.
  unfold normalized.
  rewrite finalize_no_double_space, finalize_no_triple_newline,
    finalize_clean_lines.
  apply stripped_no_outer_newline, finalize_stripped.
Qed.

(** X1: whatever the text, the result of [_finalize_formatting] has no two
    spaces in a row, no three newlines in a row, no line that begins or
    ends with white space, and no white space at either end. *)
Theorem X1_finalize_normalizes (s : str) :
  let out := _finalize_formatting s in
  no_double_space out = true
  /\ no_triple_newline out = true
  /\ clean_lines out = true
  /\ no_outer_newline out = true
  /\ strip out = out.
Proof.
  intros out. subst out.
  split; [apply finalize_no_double_space|].
  split; [apply finalize_no_triple_newline|].
  split; [apply finalize_clean_lines|].
  split; [|apply finalize_stripped].
  apply stripped_no_outer_newline, finalize_stripped.
Qed.

(** X2: [_finalize_formatting] is idempotent: finalizing a finalized text
    changes nothing. *)
Theorem X2_finalize_idempotent (s : str) :
  _finalize_formatting (_finalize_formatting s) = _finalize_formatting s.
Proof. apply finalize_fixed, finalize_normalized. Qed.

(** X3: [_finalize_formatting] removes white space only: the characters of
    the result that are no white space are those of the text, in the same
    order. *)
Theorem X3_finalize_keeps_ink (s : str) :
  filter (fun c => negb (isspace c)) (_finalize_formatting s)
  = filter (fun c => negb (isspace c)) s.
Proof. apply trimmed_same_ink, trimmed_finalize. Qed.

(** X4: whenever [convert] returns a text, the text is normalized: running
    [_finalize_formatting] or [strip] on it again changes nothing; the call
    of [strip] that ends [convert] never has anything to remove. *)
Theorem X4_convert_normalized (html_content : option str) (out : str) :
  convert html_content = Ok out ->
  normalized out = true
  /\ strip out = out
  /\ _finalize_formatting out = out.
Proof.
  intros H.
  assert (K : exists t, out = _finalize_formatting t).
  { destruct html_content as [[|c html]|]; simpl in H.
    - injection H as <-. now exists [].
    - apply bind_ok in H as (soup & _ & H). injection H as <-.
      rewrite finalize_stripped. eauto.
    - injection H as <-. now exists []. }
  destruct K as (t & ->).
  split; [apply finalize_normalized|].
  split; [apply finalize_stripped|].
  apply finalize_fixed, finalize_normalized.
Qed.

Lemma X4_convert_normalized_witness :
  normalized (u8 "here [http://e.com]") = true
  /\ strip (u8 "here [http://e.com]") = u8 "here [http://e.com]"
  /\ _finalize_formatting (u8 "here [http://e.com]")
     = u8 "here [http://e.com]".
Proof.
  apply (X4_convert_normalized (Some a_here)). vm_compute. reflexivity.
Defined.

(* ================================================================= *)
(** ** What the loops leave in the tree *)

Lemma find_all_app (p : node -> bool) (a b : list node) :
  find_all p (a ++ b) = find_all p a ++ find_all p b.
Proof.
  unfold find_all, descendants. now rewrite flat_map_app, filter_app.
Qed.

Lemma find_all_cons (p : node -> bool) (n : node) (soup : list node) :
  find_all p (n :: soup) = find_all p [n] ++ find_all p soup.
Proof. apply (find_all_app p [n] soup). Qed.

Lemma find_all_leaf (p : node -> bool) (n : node) :
  name_of n = None -> find_all p [n] = if p n then [n] else [].
Proof.
  destruct n; try discriminate; intros _; unfold find_all; simpl;
    now destruct (p _).
Qed.

Lemma named_shallow (tag : str) : shallow (named tag).
Proof. split; [reflexivity|]. now intros [| |]. Qed.

Lemma named_any_shallow (tags : list str) : shallow (named_any tags).
Proof.
  split.
  - intros nm attrs cs cs'. reflexivity.
  - intros n H. unfold named_any. apply not_true_is_false. intros E.
    apply existsb_exists in E as (t & _ & E).
    destruct n; discriminate.
Qed.

Lemma named_with_shallow (tag k : str) : shallow (named_with tag k).
Proof. split; [reflexivity|]. now intros [| |]. Qed.

(** What a loop puts in the place of a node: nothing, a string, the node
    itself when it is no tag, or the tag with what the loop has made of
    its contents. *)
Lemma visit_shape (found : node -> bool) (body : element -> result effect)
    (n : node) (r : list node) :
  visit found body n = Ok r ->
  r = []
  \/ (exists s, r = [NavigableString s])
  \/ (name_of n = None /\ r = [n])
  \/ (exists nm attrs cs cs',
        n = Tag nm attrs cs /\ r = [Tag nm attrs cs']
        /\ for_each found body cs = Ok cs'
        /\ (found n = true -> body (Intact n) = Ok Untouched)).
Proof.
  destruct n as [s|s|nm attrs cs]; simpl.
  - intros H. injection H as <-. right. right. left. auto.
  - intros H. injection H as <-. right. right. left. auto.
  - fold (for_each found body cs).
    intros H. apply bind_ok in H as (e & He & H).
    destruct e as [|s|].
    + apply bind_ok in H as (cs' & Hcs & H). injection H as <-.
      right. right. right. exists nm, attrs, cs, cs'.
      repeat split; try assumption.
      intros F. now rewrite F in He.
    + apply bind_ok in H as (x & _ & H). injection H as <-. eauto.
    + apply bind_ok in H as (x & _ & H). injection H as <-. auto.
Qed.

Lemma for_each_cons_ok (found : node -> bool) (body : element -> result effect)
    (n : node) (soup soup' : list node) :
  for_each found body (n :: soup) = Ok soup' ->
  exists r rest, visit found body n = Ok r
                 /\ for_each found body soup = Ok rest /\ soup' = r ++ rest.
Proof.
  unfold for_each. simpl. intros H.
  apply bind_ok in H as (r & Hr & H).
  apply bind_ok in H as (rest & Hrest & H). injection H as <-. eauto.
Qed.

(** No loop brings into the tree a tag that was not there. *)
Lemma for_each_absent (q found : node -> bool) (body : element -> result effect)
    (soup soup' : list node) :
  shallow q -> find_all q soup = [] ->
  for_each found body soup = Ok soup' -> find_all q soup' = [].
Proof.
  intros [Hq1 Hq2].
  assert (V : forall n, forall r,
             find_all q [n] = [] -> visit found body n = Ok r ->
             find_all q r = []).
  { induction n as [s|s|nm attrs cs IH] using node_rect_all; intros r Hn Hv.
    - injection Hv as <-. exact Hn.
    - injection Hv as <-. exact Hn.
    - destruct (visit_shape _ _ _ _ Hv)
        as [->|[(s & ->)|[(E & _)|(nm' & attrs' & cs0 & cs' & E & -> & Hcs & _)]]].
      + reflexivity.
      + rewrite find_all_leaf by reflexivity. now rewrite Hq2.
      + discriminate.
      + injection E as <- <- <-.
        rewrite find_all_one in Hn |- *.
        rewrite (Hq1 nm attrs cs' cs).
        destruct (q (Tag nm attrs cs)); [discriminate|]. simpl in Hn |- *.
        clear Hv. revert cs' Hcs Hn.
        induction IH as [|c cs Hc _ IHcs]; intros cs' Hcs Hn.
        * injection Hcs as <-. reflexivity.
        * apply for_each_cons_ok in Hcs as (r & rest & Hr & Hrest & ->).
          rewrite find_all_cons in Hn. apply app_eq_nil in Hn as [Hn1 Hn2].
          rewrite find_all_app, (Hc r Hn1 Hr), (IHcs rest Hrest Hn2).
          reflexivity. }
  revert soup'. induction soup as [|n soup IH]; intros soup' Hn Hs.
  - injection Hs as <-. reflexivity.
  - apply for_each_cons_ok in Hs as (r & rest & Hr & Hrest & ->).
    rewrite find_all_cons in Hn. apply app_eq_nil in Hn as [Hn1 Hn2].
    now rewrite find_all_app, (V n r Hn1 Hr), (IH rest Hn2 Hrest).
Qed.

(** A loop whose body replaces or removes every element it finds leaves
    none of them in the tree. *)
Lemma for_each_clears (found : node -> bool) (body : element -> result effect)
    (soup soup' : list node) :
  shallow found ->
  (forall n, body (Intact n) <> Ok Untouched) ->
  for_each found body soup = Ok soup' -> find_all found soup' = [].
Proof.
  intros [Hq1 Hq2] Hb.
  assert (V : forall n, forall r,
             visit found body n = Ok r -> find_all found r = []).
  { induction n as [s|s|nm attrs cs IH] using node_rect_all; intros r Hv.
    - injection Hv as <-. rewrite find_all_leaf by reflexivity.
      now rewrite Hq2.
    - injection Hv as <-. rewrite find_all_leaf by reflexivity.
      now rewrite Hq2.
    - destruct (visit_shape _ _ _ _ Hv)
        as [->|[(s & ->)|[(E & _)|(nm' & attrs' & cs0 & cs' & E & -> & Hcs & Hu)]]].
      + reflexivity.
      + rewrite find_all_leaf by reflexivity. now rewrite Hq2.
      + discriminate.
      + injection E as <- <- <-.
        rewrite find_all_one. rewrite (Hq1 nm attrs cs' cs).
        destruct (found (Tag nm attrs cs)) eqn:F.
        { now elim (Hb (Tag nm attrs cs)); apply Hu. }
        simpl. clear Hv Hu F. revert cs' Hcs.
        induction IH as [|c cs Hc _ IHcs]; intros cs' Hcs.
        * injection Hcs as <-. reflexivity.
        * apply for_each_cons_ok in Hcs as (r & rest & Hr & Hrest & ->).
          now rewrite find_all_app, (Hc r Hr), (IHcs rest Hrest). }
  revert soup'. induction soup as [|n soup IH]; intros soup' Hs.
  - injection Hs as <-. reflexivity.
  - apply for_each_cons_ok in Hs as (r & rest & Hr & Hrest & ->).
    now rewrite find_all_app, (V n r Hr), (IH rest Hrest).
Qed.

Ltac shallow_criterion :=
  solve [ assumption | apply named_shallow | apply named_any_shallow
        | apply named_with_shallow ].

(** [H] is the run of one loop: what was absent before it is absent after
    it. *)
Ltac through H :=
  eapply for_each_absent; [shallow_criterion| |exact H].

Lemma _process_headings_absent (q : node -> bool) (soup soup' : list node) :
  shallow q -> find_all q soup = [] ->
  _process_headings soup = Ok soup' -> find_all q soup' = [].
Proof.
  intros Hq. unfold _process_headings. generalize heading_map. intros m.
  revert soup. induction m as [|[tag prefix] m IH]; intros soup Hn H.
  - injection H as <-. exact Hn.
  - simpl in H. apply bind_ok in H as (s1 & H1 & H).
    apply (IH s1); [|exact H]. through H1. exact Hn.
Qed.

Lemma list_body_touches (items : element -> list str) (n : node) :
  list_body items (Intact n) <> Ok Untouched.
Proof.
  unfold list_body, replace_with, decompose.
  destruct (nonempty _); discriminate.
Qed.

Lemma table_body_touches (n : node) : table_body (Intact n) <> Ok Untouched.
Proof.
  unfold table_body, replace_with, decompose.
  destruct (nonempty _); discriminate.
Qed.

Lemma link_body_touches (n : node) : link_body (Intact n) <> Ok Untouched.
Proof.
  unfold link_body, replace_with, decompose.
  destruct (item _ _); simpl; [|discriminate].
  repeat match goal with
         | |- context [if ?c then _ else _] => destruct c
         end; discriminate.
Qed.

Lemma p_body_touches (n : node) : p_body (Intact n) <> Ok Untouched.
Proof.
  unfold p_body, replace_with, decompose. destruct (truthy _); discriminate.
Qed.

(** X5: the first loop of [convert] takes every [script], [style], [meta]
    and [link] element out of the tree with all that is below it, and
    leaves the rest of the tree as it is, in the same order; it cannot
    fail. *)
Theorem X5_unwanted_pruned (soup : list node) :
  for_each (named_any unwanted_tags) decompose soup
  = Ok (flat_map (pruned (named_any unwanted_tags)) soup).
Proof.
  apply flat_mapM_pure. apply Forall_forall. intros n _.
  induction n as [s|s|nm attrs cs IH] using node_rect_all; try reflexivity.
  rewrite visit_tag. cbn [pruned].
  destruct (named_any unwanted_tags (Tag nm attrs cs)).
  - unfold decompose. cbn [bind].
    rewrite iterM_ok; [reflexivity|].
    apply Forall_forall. intros c _. apply visit_wiped_ok.
    now exists Decomposed.
  - cbn [bind]. unfold for_each. now rewrite (flat_mapM_pure _ _ _ IH).
Qed.

(** X6: when the passes of [convert] return, the tree holds no [script],
    [style], [meta], [link], [ul], [ol], [table], [br] or [p] element and
    no anchor with a destination: each of them has been replaced by text or
    removed, and no later pass has brought one back. *)
Theorem X6_rewrite_leaves_none (soup soup' : list node) :
  rewrite soup = Ok soup' ->
  find_all (named_any unwanted_tags) soup' = []
  /\ find_all (named (u8 "ul")) soup' = []
  /\ find_all (named (u8 "ol")) soup' = []
  /\ find_all (named (u8 "table")) soup' = []
  /\ find_all anchor soup' = []
  /\ find_all (named (u8 "br")) soup' = []
  /\ find_all (named (u8 "p")) soup' = [].
Proof.
  intros H. unfold rewrite in H.
  apply bind_ok in H as (s1 & H1 & H).
  apply bind_ok in H as (s2 & H2 & H).
  apply bind_ok in H as (s3 & H3 & H).
  apply bind_ok in H as (s4 & H4 & H).
  apply bind_ok in H as (s5 & H5 & H6).
  pose proof H3 as H3'. unfold _process_lists in H3'.
  apply bind_ok in H3' as (s3a & H3a & H3b).
  pose proof H6 as H6'. unfold _process_paragraphs in H6'.
  apply bind_ok in H6' as (s6a & H6a & H6').
  apply bind_ok in H6' as (s6b & H6b & H6c).
  assert (U : find_all (named_any unwanted_tags) s1 = []).
  { eapply for_each_clears; [shallow_criterion| |exact H1].
    intros n. discriminate. }
  assert (Lu : find_all (named (u8 "ul")) s3a = []).
  { eapply for_each_clears; [shallow_criterion| |exact H3a].
    apply list_body_touches. }
  assert (Lo : find_all (named (u8 "ol")) s3 = []).
  { eapply for_each_clears; [shallow_criterion| |exact H3b].
    apply list_body_touches. }
  assert (T : find_all (named (u8 "table")) s4 = []).
  { eapply for_each_clears; [shallow_criterion| |exact H4].
    apply table_body_touches. }
  assert (A : find_all anchor s5 = []).
  { eapply for_each_clears; [shallow_criterion| |exact H5].
    apply link_body_touches. }
  assert (B : find_all (named (u8 "br")) s6a = []).
  { eapply for_each_clears; [shallow_criterion| |exact H6a].
    intros n. discriminate. }
  assert (P : find_all (named (u8 "p")) s6b = []).
  { eapply for_each_clears; [shallow_criterion| |exact H6b].
    apply p_body_touches. }
  repeat split.
  - through H6c. through H6b. through H6a. through H5. through H4.
    through H3b. through H3a.
    eapply _process_headings_absent; [shallow_criterion|exact U|exact H2].
  - through H6c. through H6b. through H6a. through H5. through H4.
    through H3b. exact Lu.
  - through H6c. through H6b. through H6a. through H5. through H4. exact Lo.
  - through H6c. through H6b. through H6a. through H5. exact T.
  - through H6c. through H6b. through H6a. exact A.
  - through H6c. through H6b. exact B.
  - through H6c. exact P.
Qed.

Lemma X6_rewrite_leaves_none_witness :
  find_all (named_any unwanted_tags)
    [NavigableString ([nl] ++ u8 "  • a" ++ [nl] ++ u8 "  • b" ++ [nl])] = []
  /\ find_all (named (u8 "ul"))
       [NavigableString ([nl] ++ u8 "  • a" ++ [nl] ++ u8 "  • b" ++ [nl])] = []
  /\ find_all (named (u8 "ol"))
       [NavigableString ([nl] ++ u8 "  • a" ++ [nl] ++ u8 "  • b" ++ [nl])] = []
  /\ find_all (named (u8 "table"))
       [NavigableString ([nl] ++ u8 "  • a" ++ [nl] ++ u8 "  • b" ++ [nl])] = []
  /\ find_all anchor
       [NavigableString ([nl] ++ u8 "  • a" ++ [nl] ++ u8 "  • b" ++ [nl])] = []
  /\ find_all (named (u8 "br"))
       [NavigableString ([nl] ++ u8 "  • a" ++ [nl] ++ u8 "  • b" ++ [nl])] = []
  /\ find_all (named (u8 "p"))
       [NavigableString ([nl] ++ u8 "  • a" ++ [nl] ++ u8 "  • b" ++ [nl])] = [].
Proof.
  apply (X6_rewrite_leaves_none (BeautifulSoup ul_ab)).
  vm_compute. reflexivity.
Defined.

(* ================================================================= *)
(** ** When the loop on the links fails *)

Lemma iterM_raise {A} (f : A -> result unit) (e : exn) (l : list A) :
  Forall (fun x => f x = Ok tt \/ f x = Raise e) l ->
  Exists (fun x => f x = Raise e) l ->
  iterM f l = Raise e.
Proof.
  induction 1 as [|x l Hx _ IH]; intros Hex; [inversion Hex|].
  simpl. destruct Hx as [Hx|Hx]; rewrite Hx; [|reflexivity].
  simpl. apply IH. inversion Hex; subst; [congruence|assumption].
Qed.

Lemma find_all_exists (p : node -> bool) (soup : list node) :
  find_all p soup <> [] -> Exists (fun n => find_all p [n] <> []) soup.
Proof.
  induction soup as [|n soup IH]; [now intros H; elim H|].
  rewrite find_all_cons. intros H.
  destruct (find_all p [n]) eqn:E.
  - apply Exists_cons_tl. apply IH. exact H.
  - apply Exists_cons_hd. rewrite E. discriminate.
Qed.

(** Below a decomposed element, the first element the loop has found makes
    it fail when the body cannot take a wiped element. *)
Lemma visit_wiped_raises (found : node -> bool)
    (body : element -> result effect) (e : exn) (n : node) :
  shallow found -> body Wiped = Raise e ->
  (find_all found [n] = [] /\ visit_wiped found body n = Ok tt)
  \/ (find_all found [n] <> [] /\ visit_wiped found body n = Raise e).
Proof.
  intros [Hq1 Hq2] Hw.
  induction n as [s|s|nm attrs cs IH] using node_rect_all.
  - left. rewrite find_all_leaf by reflexivity. now rewrite Hq2.
  - left. rewrite find_all_leaf by reflexivity. now rewrite Hq2.
  - rewrite find_all_one. cbn [visit_wiped].
    destruct (found (Tag nm attrs cs)).
    + right. rewrite Hw. split; [discriminate|reflexivity].
    + cbn [bind app].
      destruct (find_all found cs) as [|x l] eqn:E.
      * left. split; [reflexivity|]. now apply visit_wiped_none.
      * right. split; [discriminate|].
        apply iterM_raise.
        -- apply Forall_forall. intros c Hc. rewrite Forall_forall in IH.
           destruct (IH c Hc) as [[_ H]|[_ H]]; auto.
        -- assert (Hne : find_all found cs <> []) by (rewrite E; discriminate).
           apply find_all_exists in Hne. rewrite Exists_exists in *.
           destruct Hne as (c & Hc & Hn). exists c. split; [exact Hc|].
           rewrite Forall_forall in IH.
           destruct (IH c Hc) as [[H _]|[_ H]]; [contradiction|exact H].
Qed.

Lemma wiped_links (cs : list node) :
  iterM (visit_wiped anchor link_body) cs
  = if nonempty (find_all anchor cs) then Raise TypeError else Ok tt.
Proof.
  destruct (find_all anchor cs) as [|x l] eqn:E; cbn [nonempty].
  - now apply visit_wiped_none.
  - assert (Hne : find_all anchor cs <> []) by (rewrite E; discriminate).
    apply iterM_raise.
    + apply Forall_forall. intros c _.
      destruct (visit_wiped_raises anchor link_body TypeError c
                  (named_with_shallow _ _) eq_refl) as [[_ H]|[_ H]]; auto.
    + apply find_all_exists in Hne. rewrite Exists_exists in *.
      destruct Hne as (c & Hc & Hn). exists c. split; [exact Hc|].
      destruct (visit_wiped_raises anchor link_body TypeError c
                  (named_with_shallow _ _) eq_refl) as [[H _]|[_ H]];
        [contradiction|exact H].
Qed.

Lemma link_body_effect (n : node) :
  anchor n = true ->
  exists s, link_body (Intact n)
            = Ok (if empty_anchor n then Decomposed else Replaced s).
Proof.
  intros H. apply named_with_inv in H as (attrs & cs & href & -> & L).
  rewrite (link_body_spec _ href attrs cs L). cbv zeta.
  unfold empty_anchor, href_of. rewrite L. cbn [get_text].
  destruct (truthy (strip (flat_map get_text cs))),
           (truthy (strip href)); cbn [andb negb]; eauto.
  destruct (eqb _ _); eauto.
Qed.

Lemma hazard_cons (n : node) (soup : list node) :
  anchor_in_empty_anchor (n :: soup)
  = anchor_in_empty_anchor [n] || anchor_in_empty_anchor soup.
Proof.
  unfold anchor_in_empty_anchor. now rewrite find_all_cons, existsb_app.
Qed.

Lemma hazard_tag (nm : str) (attrs : list (str * str)) (cs : list node) :
  anchor_in_empty_anchor [Tag nm attrs cs]
  = (anchor (Tag nm attrs cs) && empty_anchor (Tag nm attrs cs)
     && nonempty (find_all anchor cs))
    || anchor_in_empty_anchor cs.
Proof.
  unfold anchor_in_empty_anchor at 1. rewrite find_all_one, existsb_app.
  destruct (anchor (Tag nm attrs cs)); cbn [existsb andb contents_of];
    [now rewrite orb_false_r|reflexivity].
Qed.

Lemma links_on_forest (soup : list node) :
  Forall (fun n =>
            if anchor_in_empty_anchor [n]
            then visit anchor link_body n = Raise TypeError
            else exists r, visit anchor link_body n = Ok r) soup ->
  if anchor_in_empty_anchor soup
  then for_each anchor link_body soup = Raise TypeError
  else exists r, for_each anchor link_body soup = Ok r.
Proof.
  induction 1 as [|n soup Hn _ IH]; [cbn; eauto|].
  rewrite hazard_cons. unfold for_each in *. cbn [flat_mapM].
  destruct (anchor_in_empty_anchor [n]); cbn [orb].
  - now rewrite Hn.
  - destruct Hn as (r & ->). cbn [bind].
    destruct (anchor_in_empty_anchor soup).
    + now rewrite IH.
    + destruct IH as (r' & ->). cbn [bind]. eauto.
Qed.

Lemma links_on_node (n : node) :
  if anchor_in_empty_anchor [n]
  then visit anchor link_body n = Raise TypeError
  else exists r, visit anchor link_body n = Ok r.
Proof.
  induction n as [s|s|nm attrs cs IH] using node_rect_all;
    try (cbn; eauto; fail).
  apply links_on_forest in IH.
  rewrite hazard_tag, visit_tag.
  destruct (anchor (Tag nm attrs cs)) eqn:F; cbn [andb].
  - destruct (link_body_effect _ F) as (s & ->). cbn [bind].
    destruct (empty_anchor (Tag nm attrs cs)); cbn [andb].
    + rewrite wiped_links.
      destruct (nonempty (find_all anchor cs)) eqn:E; cbn [orb bind].
      * reflexivity.
      * replace (anchor_in_empty_anchor cs) with false; [eauto|].
        unfold anchor_in_empty_anchor.
        now destruct (find_all anchor cs).
    + cbn [orb]. destruct (anchor_in_empty_anchor cs).
      * now rewrite IH.
      * destruct IH as (r & ->). cbn [bind]. eauto.
  - cbn [orb bind]. destruct (anchor_in_empty_anchor cs).
    + now rewrite IH.
    + destruct IH as (r & ->). cbn [bind]. eauto.
Qed.

Lemma links_outcome (soup : list node) :
  if anchor_in_empty_anchor soup
  then _process_links soup = Raise TypeError
  else exists soup', _process_links soup = Ok soup'.
Proof.
  apply links_on_forest. apply Forall_forall. intros n _.
  apply links_on_node.
Qed.

(** X7: [_process_links] fails exactly on the trees in which an anchor with
    a destination, whose trimmed text and trimmed destination are both
    empty, has another anchor with a destination somewhere inside it; the
    failure is a [TypeError], and on every other tree the loop returns. *)
Theorem X7_links_fail_exactly (soup : list node) :
  match _process_links soup with
  | Ok _ => anchor_in_empty_anchor soup = false
  | Raise e => e = TypeError /\ anchor_in_empty_anchor soup = true
  end.
Proof.
  pose proof (links_outcome soup) as K.
  destruct (anchor_in_empty_anchor soup).
  - now rewrite K.
  - now destruct K as (soup' & ->).
Qed.

(** X8: the passes of [convert] on the parsed tree return for every tree
    that has no anchor with a destination. *)
Theorem X8_no_anchor_no_failure (soup : list node) :
  find_all anchor soup = [] -> exists soup', rewrite soup = Ok soup'.
Proof.
  intros Hn. unfold rewrite.
  destruct (unwanted_total soup) as (s1 & H1). rewrite H1. cbn [bind].
  destruct (_process_headings_total s1) as (s2 & H2). rewrite H2. cbn [bind].
  pose proof (_process_lists_total s2) as (s3 & H3). rewrite H3. cbn [bind].
  destruct (_process_tables_total s3) as (s4 & H4). rewrite H4. cbn [bind].
  assert (A : find_all anchor s4 = []).
  { unfold _process_lists in H3. apply bind_ok in H3 as (s3a & H3a & H3b).
    through H4. through H3b. through H3a.
    eapply _process_headings_absent; [shallow_criterion| |exact H2].
    through H1. exact Hn. }
  unfold _process_links. fold anchor.
  rewrite (for_each_none anchor link_body s4 A). cbn [bind].
  apply _process_paragraphs_total.
Qed.

Lemma X8_no_anchor_no_failure_witness :
  exists soup', rewrite (BeautifulSoup ul_nested) = Ok soup'.
Proof.
  apply (X8_no_anchor_no_failure (BeautifulSoup ul_nested)).
  vm_compute. reflexivity.
Defined.

(* ================================================================= *)
(** ** The headings that stay *)

(** A loop on headings leaves an element with no text as it is. *)
Lemma heading_pass_blank (tag prefix : str) (n : node) :
  forallb isspace (get_text n) = true ->
  visit (named tag) (heading_body prefix) n = Ok [n].
Proof.
  induction n as [s|s|nm attrs cs IH] using node_rect_all; try reflexivity.
  intros Hb. rewrite visit_tag.
  assert (E : (if named tag (Tag nm attrs cs)
               then heading_body prefix (Intact (Tag nm attrs cs))
               else Ok Untouched) = Ok Untouched).
  { destruct (named tag (Tag nm attrs cs)); [|reflexivity].
    unfold heading_body. cbn [text_of].
    apply strip_empty in Hb. now rewrite Hb. }
  rewrite E. cbn [bind].
  assert (C : for_each (named tag) (heading_body prefix) cs = Ok cs).
  { cbn [get_text] in Hb. rewrite forallb_flat_map in Hb.
    unfold for_each. clear E.
    induction IH as [|c cs Hc _ IHcs]; [reflexivity|].
    cbn [forallb] in Hb. apply andb_true_iff in Hb as [Hb1 Hb2].
    cbn [flat_mapM]. rewrite (Hc Hb1), (IHcs Hb2). reflexivity. }
  now rewrite C.
Qed.

(** A tag of the result is a tag of the source that the loop has passed
    by, with what the loop has made of its contents. *)
Lemma for_each_origin (found : node -> bool) (body : element -> result effect)
    (soup soup' : list node) (nm : str) (attrs : list (str * str))
    (cs' : list node) :
  for_each found body soup = Ok soup' ->
  In (Tag nm attrs cs') (descendants soup') ->
  exists cs, In (Tag nm attrs cs) (descendants soup)
             /\ for_each found body cs = Ok cs'
             /\ (found (Tag nm attrs cs) = true ->
                 body (Intact (Tag nm attrs cs)) = Ok Untouched).
Proof.
  assert (V : forall n r,
             visit found body n = Ok r ->
             In (Tag nm attrs cs') (descendants r) ->
             exists cs, In (Tag nm attrs cs) (subtree n)
                        /\ for_each found body cs = Ok cs'
                        /\ (found (Tag nm attrs cs) = true ->
                            body (Intact (Tag nm attrs cs)) = Ok Untouched)).
  { induction n as [s|s|nm0 attrs0 cs0 IH] using node_rect_all; intros r Hv Hin.
    - injection Hv as <-. simpl in Hin. destruct Hin as [E|[]]. discriminate.
    - injection Hv as <-. simpl in Hin. destruct Hin as [E|[]]. discriminate.
    - destruct (visit_shape _ _ _ _ Hv)
        as [->|[(s & ->)|[(E & _)|(nm1 & attrs1 & cs1 & cs1' & E & -> & Hcs & Hu)]]].
      + destruct Hin.
      + simpl in Hin. destruct Hin as [E|[]]. discriminate.
      + discriminate.
      + injection E as <- <- <-.
        unfold descendants in Hin. cbn [flat_map subtree] in Hin.
        rewrite app_nil_r in Hin. destruct Hin as [E|Hin].
        * injection E as -> -> ->. exists cs0. cbn [subtree].
          split; [now left|]. split; assumption.
        * clear Hv Hu.
          assert (K : exists cs, In (Tag nm attrs cs) (flat_map subtree cs0)
                      /\ for_each found body cs = Ok cs'
                      /\ (found (Tag nm attrs cs) = true ->
                          body (Intact (Tag nm attrs cs)) = Ok Untouched)).
          { revert cs1' Hcs Hin.
            induction IH as [|c cs0 Hc _ IHcs]; intros cs1' Hcs Hin.
            - injection Hcs as <-. destruct Hin.
            - apply for_each_cons_ok in Hcs as (r & rest & Hr & Hrest & ->).
              rewrite flat_map_app in Hin. apply in_app_or in Hin as [Hin|Hin].
              + destruct (Hc r Hr Hin) as (cs & H1 & H2).
                exists cs. split; [|exact H2].
                cbn [flat_map]. apply in_or_app. now left.
              + destruct (IHcs rest Hrest Hin) as (cs & H1 & H2).
                exists cs. split; [|exact H2].
                cbn [flat_map]. apply in_or_app. now right. }
          destruct K as (cs & H1 & H2). exists cs. split; [|exact H2].
          cbn [subtree]. now right. }
  revert soup'. induction soup as [|n soup IH]; intros soup' Hs Hin.
  - injection Hs as <-. destruct Hin.
  - apply for_each_cons_ok in Hs as (r & rest & Hr & Hrest & ->).
    unfold descendants in Hin. rewrite flat_map_app in Hin.
    apply in_app_or in Hin as [Hin|Hin].
    + destruct (V n r Hr Hin) as (cs & H1 & H2). exists cs. split; [|exact H2].
      unfold descendants. cbn [flat_map]. apply in_or_app. now left.
    + destruct (IH rest Hrest Hin) as (cs & H1 & H2). exists cs.
      split; [|exact H2].
      unfold descendants. cbn [flat_map]. apply in_or_app. now right.
Qed.

Lemma heading_pass_blank_forest (tag prefix : str) (cs : list node) :
  forallb isspace (flat_map get_text cs) = true ->
  for_each (named tag) (heading_body prefix) cs = Ok cs.
Proof.
  intros Hb. rewrite forallb_flat_map in Hb. unfold for_each.
  induction cs as [|c cs IH]; [reflexivity|].
  cbn [forallb] in Hb. apply andb_true_iff in Hb as [Hb1 Hb2].
  cbn [flat_mapM]. rewrite (heading_pass_blank _ _ c Hb1), (IH Hb2).
  reflexivity.
Qed.

(** After the loop on one level of headings: the headings of that level
    that are left have no text, and so have the elements selected by [q]
    if they had none before. *)
Lemma heading_pass_leaves_blank (tag prefix : str) (soup soup' : list node)
    (q : node -> bool) :
  shallow q ->
  for_each (named tag) (heading_body prefix) soup = Ok soup' ->
  (forall d, In d (find_all q soup) -> forallb isspace (get_text d) = true) ->
  forall d, In d (find_all (fun n => named tag n || q n) soup') ->
            forallb isspace (get_text d) = true.
Proof.
  intros [Hq1 Hq2] Hs Hinv d Hd. unfold find_all in Hd.
  apply filter_In in Hd as [Hin Hq].
  destruct d as [s|s|nm attrs cs'];
    try (rewrite Hq2 in Hq by reflexivity; discriminate).
  destruct (for_each_origin _ _ _ _ _ _ _ Hs Hin) as (cs & Hcs & Hr & Hu).
  assert (B : forallb isspace (flat_map get_text cs) = true).
  { destruct (named tag (Tag nm attrs cs')) eqn:F.
    - change (named tag (Tag nm attrs cs) = true) in F.
      specialize (Hu F). unfold heading_body in Hu. cbn [text_of get_text] in Hu.
      apply strip_empty.
      destruct (strip (flat_map get_text cs)); [reflexivity|discriminate].
    - cbn [orb] in Hq. rewrite (Hq1 nm attrs cs' cs) in Hq.
      apply (Hinv (Tag nm attrs cs)). unfold find_all.
      apply filter_In. now split. }
  rewrite (heading_pass_blank_forest _ _ cs B) in Hr.
  injection Hr as <-. exact B.
Qed.

Lemma headings_leave_blank (m : list (str * str)) (q : node -> bool)
    (soup soup' : list node) :
  shallow q ->
  foldM (fun soup '(tag, prefix) =>
           for_each (named tag) (heading_body prefix) soup) m soup = Ok soup' ->
  (forall d, In d (find_all q soup) -> forallb isspace (get_text d) = true) ->
  forall d, In d (find_all (fun n => named_any (map fst m) n || q n) soup') ->
            forallb isspace (get_text d) = true.
Proof.
  revert q soup. induction m as [|[tag prefix] m IH]; intros q soup Hq Hs Hinv d.
  - injection Hs as <-. exact (Hinv d).
  - cbn [foldM] in Hs. apply bind_ok in Hs as (s1 & H1 & Hs).
    intros Hd.
    apply (IH (fun n => named tag n || q n) s1); try assumption.
    + destruct Hq as [Hq1 Hq2]. split.
      * intros nm attrs cs cs'. now rewrite (Hq1 nm attrs cs cs').
      * intros n Hn. rewrite (Hq2 n Hn). now destruct n.
    + now apply (heading_pass_leaves_blank tag prefix soup s1 q).
    + unfold find_all in *. apply filter_In in Hd as [Hin Hd].
      apply filter_In. split; [exact Hin|].
      unfold named_any in *. cbn [map fst existsb] in Hd.
      destruct (named tag d), (existsb (fun t => named t d) (map fst m)),
        (q d); try reflexivity; discriminate.
Qed.

(** X9: after [_process_headings] no heading with text is left: every
    [h1] to [h6] element still in the tree has a text that is white space
    only. *)
Theorem X9_headings_left_are_blank (soup soup' : list node) (d : node) :
  _process_headings soup = Ok soup' ->
  In d (find_all heading soup') ->
  strip (get_text d) = [].
Proof.
  intros Hs Hd. apply strip_empty.
  apply (headings_leave_blank heading_map (fun _ => false) soup soup').
  - split; reflexivity.
  - exact Hs.
  - intros d' Hd'. unfold find_all in Hd'. apply filter_In in Hd' as [_ F].
    discriminate.
  - unfold find_all, heading in *. apply filter_In in Hd as [Hin Hd].
    apply filter_In. split; [exact Hin|]. now rewrite orb_false_r.
Qed.

Lemma X9_headings_left_are_blank_witness :
  strip (get_text (Tag (u8 "h2") [] [NavigableString [sp]])) = [].
Proof.
  apply (X9_headings_left_are_blank
           (BeautifulSoup (u8 "<h1>a<h2>b</h2></h1><h2> </h2>"))
           [NavigableString
              ([nl; nl] ++ u8 "====== AB" ++ [nl] ++ u8 "=======" ++ [nl]);
            Tag (u8 "h2") [] [NavigableString [sp]]]).
  - vm_compute. reflexivity.
  - vm_compute. auto.
Defined.

(* ================================================================= *)
(** ** The names of the attachment references *)

(** X10: every reference that [extract_attachments_info] returns has a
    name that is not empty, has no white space at either end and, in lower
    case, contains one of the keywords; and there are no more references
    than anchors with a destination in the tree. *)
Theorem X10_attachment_names (html_content : option str)
    (l : list attachment) :
  extract_attachments_info html_content = Ok l ->
  Forall (fun a =>
            name a <> []
            /\ strip (name a) = name a
            /\ exists keyword,
                 In keyword keywords
                 /\ contains keyword (lower (name a)) = true) l
  /\ (forall html, html_content = Some html ->
        (List.length l
         <= List.length (find_all anchor (BeautifulSoup html)))%nat).
Proof.
  intros H.
  assert (K : l = [] \/ exists html,
                html_content = Some html /\
                l = map (fun link =>
                           Attachment (strip (get_text link)) (href_of link))
                        (filter mentions_attachment
                           (find_all anchor (BeautifulSoup html)))).
  { destruct html_content as [[|c html]|]; simpl in H.
    - injection H as <-. now left.
    - rewrite attachments_of_soup in H. injection H as <-. right. eauto.
    - injection H as <-. now left. }
  destruct K as [->|(html & -> & ->)].
  - split; [constructor|]. intros html _. simpl. lia.
  - split.
    + apply Forall_forall. intros a Ha.
      apply in_map_iff in Ha as (link & <- & Hl).
      apply filter_In in Hl as [_ Hm]. cbn [name].
      unfold mentions_attachment in Hm.
      apply existsb_exists in Hm as (kw & Hkw & Hc).
      split; [|split; [apply strip_idem|eauto]].
      intros E. rewrite E in Hc.
      unfold keywords in Hkw. cbn [map In] in Hkw.
      repeat destruct Hkw as [<-|Hkw]; try discriminate. destruct Hkw.
    + intros html' E. injection E as <-.
      rewrite length_map. apply filter_length_le.
Qed.

Lemma X10_attachment_names_witness :
  Forall (fun a =>
            name a <> []
            /\ strip (name a) = name a
            /\ exists keyword,
                 In keyword keywords
                 /\ contains keyword (lower (name a)) = true)
         [Attachment (u8 "Download file") (u8 "f.pdf")]
  /\ (forall html, Some a_download = Some html ->
        (List.length [Attachment (u8 "Download file") (u8 "f.pdf")]
         <= List.length (find_all anchor (BeautifulSoup html)))%nat).
Proof.
  apply (X10_attachment_names (Some a_download)). vm_compute. reflexivity.
Defined.

(* ================================================================= *)
(** ** The addresses read from a line *)

Lemma addresses_app (l rest : str) :
  addresses (l ++ 44 :: rest) = addresses l ++ addresses rest.
Proof. unfold addresses. now rewrite split_on_app, flat_map_app. Qed.

Lemma addresses_space (c : char) (s : str) :
  isspace c = true -> c <> 44 -> addresses (c :: s) = addresses s.
Proof.
  intros Hc Hn. unfold addresses. cbn [split_on].
  apply N.eqb_neq in Hn. rewrite Hn.
  pose proof (split_on_nonempty 44 s) as NE.
  destruct (split_on 44 s) as [|l ls]; [contradiction|].
  cbn [flat_map]. unfold strip at 1 2. cbn [lstrip]. now rewrite Hc.
Qed.

Lemma addresses_one (a : str) :
  well_formed_address a -> addresses a = [a].
Proof.
  intros (Hne & Hs & Hc). unfold addresses.
  rewrite (split_on_none 44 a Hc). cbn [flat_map]. rewrite Hs.
  apply truthy_nonempty in Hne. now rewrite Hne.
Qed.

Lemma separates_lines (line : str) :
  forallb separates line = forallb (forallb isspace) (split_on 44 line).
Proof.
  induction line as [|c r IH]; [reflexivity|].
  cbn [forallb split_on]. rewrite IH. unfold separates at 1.
  pose proof (split_on_nonempty 44 r) as NE.
  destruct (c =? 44) eqn:E.
  - now rewrite orb_true_r.
  - rewrite orb_false_r.
    destruct (split_on 44 r) as [|l ls]; [contradiction|].
    cbn [forallb]. now rewrite andb_assoc.
Qed.

(** X11: every address that [main] takes from a line of input is not
    empty, has no white space at either end and holds no comma. *)
Theorem X11_addresses_well_formed (line : str) :
  Forall well_formed_address (addresses line).
Proof.
  apply Forall_forall. intros a Ha. unfold addresses in Ha.
  apply in_flat_map in Ha as (email & Hin & Ha).
  destruct (truthy (strip email)) eqn:T; [|destruct Ha].
  destruct Ha as [<-|[]]. repeat split.
  - now apply truthy_nonempty.
  - apply strip_idem.
  - intros H. apply strip_in in H. revert H.
    now apply (split_on_no_sep 44 line).
Qed.

(** X12: [main] finds no address in a line, and asks again for a
    recipient, exactly when the line holds nothing but commas and white
    space. *)
Theorem X12_no_address (line : str) :
  nonempty (addresses line) = negb (forallb separates line).
Proof.
  rewrite separates_lines. unfold addresses.
  induction (split_on 44 line) as [|email L IH]; [reflexivity|].
  cbn [flat_map forallb].
  destruct (forallb isspace email) eqn:B.
  - apply strip_empty in B. rewrite B. cbn [truthy app andb]. exact IH.
  - destruct (strip email) eqn:S.
    + apply strip_empty in S. congruence.
    + reflexivity.
Qed.

(** X13: a line made of well-formed addresses separated by a comma and a
    space is read back as the list of these addresses. *)
Theorem X13_addresses_round_trip (L : list str) :
  Forall well_formed_address L ->
  addresses (join (u8 ", ") L) = L.
Proof.
  induction 1 as [|a L Ha HL IH]; [reflexivity|].
  destruct L as [|b L]; [now apply addresses_one|].
  change (join (u8 ", ") (a :: b :: L))
    with (a ++ 44 :: (32 :: join (u8 ", ") (b :: L))).
  rewrite addresses_app, (addresses_one a Ha).
  rewrite addresses_space by (reflexivity || discriminate).
  now rewrite IH.
Qed.

Lemma X13_addresses_round_trip_witness :
  addresses (join (u8 ", ") [u8 "ann@example.org"; u8 "bob@example.org"])
  = [u8 "ann@example.org"; u8 "bob@example.org"].
Proof.
  apply (X13_addresses_round_trip
           [u8 "ann@example.org"; u8 "bob@example.org"]).
  repeat constructor; try discriminate; try reflexivity;
    vm_compute; intuition discriminate.
Defined.

(* ================================================================= *)
(** ** The content of a message *)

Lemma and_then_some {A B} (r : option A) (k : A -> option B) (b : B) :
  and_then r k = Some b -> exists a, r = Some a /\ k a = Some b.
Proof. destruct r as [a|]; simpl; [eauto|discriminate]. Qed.

Lemma convert_value_normalized (content out : value) :
  convert_value content = Some out ->
  exists text, out = VStr text /\ normalized text = true.
Proof.
  unfold convert_value. destruct (truth content).
  - destruct content as [| | |s| |]; try discriminate.
    destruct (convert (Some s)) as [text|e] eqn:E; [|discriminate].
    intros H. injection H as <-. exists text. split; [reflexivity|].
    assert (K : exists t, text = _finalize_formatting t).
    { destruct s as [|c s]; simpl in E.
      - injection E as <-. now exists [].
      - apply bind_ok in E as (soup & _ & E). injection E as <-.
        rewrite finalize_stripped. eauto. }
    destruct K as (t & ->). apply finalize_normalized.
  - intros H. injection H as <-. now exists [].
Qed.

(** X14: in what [process_email_content] returns, the readable content of
    a message whose content type is the string [html] is a normalized text,
    the result of [convert] on the content, and the attachment references
    are those of [extract_attachments_info]; for any other content type the
    readable content is the content itself, untouched, and there is no
    attachment reference. *)
Theorem X14_readable_content (email_data : value) (c : email_content) :
  process_email_content email_data = Some c ->
  exists body content,
    get email_data (u8 "body") (VDict []) = Some body
    /\ get body (u8 "contentType") (VStr (u8 "text"))
       = Some (ec_content_type c)
    /\ get body (u8 "content") (VStr []) = Some content
    /\ if is_str (ec_content_type c) (u8 "html")
       then (exists text,
               ec_readable_content c = VStr text
               /\ normalized text = true
               /\ convert_value content = Some (VStr text)
               /\ extract_value content = Some (ec_attachments_info c))
       else ec_readable_content c = content /\ ec_attachments_info c = [].
Proof.
  unfold process_email_content. intros H.
  apply and_then_some in H as (body & Hbody & H).
  apply and_then_some in H as (content_type & Htype & H).
  apply and_then_some in H as (content & Hcontent & H).
  apply and_then_some in H as (readable & Hreadable & H).
  apply and_then_some in H as (infos & Hinfos & H).
  repeat (apply and_then_some in H as (? & _ & H)).
  injection H as <-. cbn [ec_content_type ec_readable_content
                           ec_attachments_info].
  exists body, content. repeat split; try assumption.
  destruct (is_str content_type (u8 "html")).
  - destruct (convert_value_normalized _ _ Hreadable) as (text & -> & N).
    exists text. auto.
  - injection Hreadable as <-. injection Hinfos as <-. auto.
Qed.

Lemma X14_readable_content_witness :
  exists body content,
    get (VDict [(u8 "body",
                 VDict [(u8 "contentType", VStr (u8 "html"));
                        (u8 "content", VStr h1_title)])])
        (u8 "body") (VDict []) = Some body
    /\ get body (u8 "contentType") (VStr (u8 "text"))
       = Some (VStr (u8 "html"))
    /\ get body (u8 "content") (VStr []) = Some content
    /\ (exists text,
          VStr (u8 "====== TITLE" ++ [nl] ++ rule 7) = VStr text
          /\ normalized text = true
          /\ convert_value content = Some (VStr text)
          /\ extract_value content = Some []).
Proof.
  apply (X14_readable_content
           (VDict [(u8 "body",
                    VDict [(u8 "contentType", VStr (u8 "html"));
                           (u8 "content", VStr h1_title)])])
           (EmailContent VNone (VStr (u8 "No subject")) (VStr (u8 "Unknown"))
              (VStr []) [] [] [] VNone (VStr (u8 "html"))
              (VStr (u8 "====== TITLE" ++ [nl] ++ rule 7))
              (VStr []) (VBool false) [] (VStr (u8 "normal")))).
  vm_compute. reflexivity.
Defined.


(** X15: a message that has none of the keys [process_email_content]
    reads is not refused: the subject is [No subject], the sender
    [Unknown], the importance [normal], the content type [text], the texts
    and the lists are empty, and the id and the date are [None]. *)
Theorem X15_message_defaults (d : list (str * value)) :
  Forall (fun k => dict_lookup k d = None) message_keys ->
  process_email_content (VDict d)
  = Some (EmailContent VNone (VStr (u8 "No subject")) (VStr (u8 "Unknown"))
            (VStr []) [] [] [] VNone (VStr (u8 "text")) (VStr [])
            (VStr []) (VBool false) [] (VStr (u8 "normal"))).
Proof.
  intros H. unfold message_keys in H. cbn [map] in H.
  repeat match goal with
         | H : Forall _ (_ :: _) |- _ =>
             let K := fresh "K" in
             apply Forall_cons_iff in H as [K H]
         end.
  unfold process_email_content, recipients, get.
  rewrite K. cbn [and_then dict_lookup].
  change (is_str (VStr (u8 "text")) (u8 "html")) with false.
  repeat match goal with
         | Hk : dict_lookup _ d = None |- _ =>
             rewrite Hk; cbn [and_then dict_lookup iterate mapM]
         end.
  reflexivity.
Qed.

Lemma X15_message_defaults_witness :
  process_email_content (VDict [(u8 "webLink", VStr (u8 "https://e.com"))])
  = Some (EmailContent VNone (VStr (u8 "No subject")) (VStr (u8 "Unknown"))
            (VStr []) [] [] [] VNone (VStr (u8 "text")) (VStr [])
            (VStr []) (VBool false) [] (VStr (u8 "normal"))).
Proof.
  apply (X15_message_defaults [(u8 "webLink", VStr (u8 "https://e.com"))]).
  repeat constructor.
Defined.


Lemma and_then_none {A B} (r : option A) (k : A -> option B) :
  (forall a, k a = None) -> and_then r k = None.
Proof. intros H. destruct r; simpl; auto. Qed.

(** X16: a message whose [body] or whose [from] is there but is no dict
    (a [null], say) makes [process_email_content] raise, and
    [get_email_content] returns [None] for it although the request has
    succeeded. *)
Theorem X16_null_field_unreadable (d : list (str * value)) (key : str)
    (v : value) :
  key = u8 "body" \/ key = u8 "from" ->
  dict_lookup key d = Some v ->
  is_dict v = false ->
  process_email_content (VDict d) = None
  /\ get_email_content (Response 200 (Some (VDict d))) = None.
Proof.
  intros Hkey Hv Hd.
  assert (P : process_email_content (VDict d) = None).
  { unfold process_email_content.
    destruct Hkey as [->| ->].
    - unfold get at 1. rewrite Hv. cbn [and_then].
      destruct v; try discriminate; reflexivity.
    - do 7 (apply and_then_none; intros ?).
      unfold get at 1. rewrite Hv. cbn [and_then].
      destruct v; try discriminate; reflexivity. }
  split; [exact P|]. cbn [get_email_content]. exact P.
Qed.

Lemma X16_null_field_unreadable_witness :
  process_email_content
    (VDict [(u8 "subject", VStr (u8 "Draft")); (u8 "from", VNone)]) = None
  /\ get_email_content
       (Response 200
          (Some (VDict [(u8 "subject", VStr (u8 "Draft"));
                        (u8 "from", VNone)]))) = None.
Proof.
  apply (X16_null_field_unreadable
           [(u8 "subject", VStr (u8 "Draft")); (u8 "from", VNone)]
           (u8 "from") VNone); [now right|reflexivity|reflexivity].
Defined.

(** X17: when [convert] raises on the HTML content of a message, the
    exception does not leave [get_email_content]: it returns [None], as it
    does when the request fails, and the message cannot be read. *)
Theorem X17_convert_failure_is_caught (d body : list (str * value))
    (s : str) (e : exn) :
  dict_lookup (u8 "body") d = Some (VDict body) ->
  dict_lookup (u8 "contentType") body = Some (VStr (u8 "html")) ->
  dict_lookup (u8 "content") body = Some (VStr s) ->
  convert (Some s) = Raise e ->
  process_email_content (VDict d) = None
  /\ get_email_content (Response 200 (Some (VDict d))) = None.
Proof.
  intros Hb Ht Hc He.
  assert (P : process_email_content (VDict d) = None).
  { unfold process_email_content, get. rewrite Hb. cbn [and_then].
    rewrite Ht, Hc. cbn [and_then].
    change (is_str (VStr (u8 "html")) (u8 "html")) with true.
    unfold convert_value. cbn [truth].
    destruct s as [|c s]; [discriminate|].
    cbn [truthy]. now rewrite He. }
  split; [exact P|]. cbn [get_email_content]. exact P.
Qed.

Lemma X17_convert_failure_is_caught_witness :
  process_email_content
    (VDict [(u8 "body",
             VDict [(u8 "contentType", VStr (u8 "html"));
                    (u8 "content", VStr a_in_a)])]) = None
  /\ get_email_content
       (Response 200
          (Some (VDict [(u8 "body",
                         VDict [(u8 "contentType", VStr (u8 "html"));
                                (u8 "content", VStr a_in_a)])]))) = None.
Proof.
  apply (X17_convert_failure_is_caught
           [(u8 "body",
             VDict [(u8 "contentType", VStr (u8 "html"));
                    (u8 "content", VStr a_in_a)])]
           [(u8 "contentType", VStr (u8 "html")); (u8 "content", VStr a_in_a)]
           a_in_a TypeError); vm_compute; reflexivity.
Defined.
